(** * The Todo service of [main.py]: model and verified properties

    [main.py] is a FastAPI application with five endpoints over one SQLModel
    table, [Todo].  The endpoint functions are embedded below statement by
    statement, in a state-and-exception monad over the SQLAlchemy session
    they receive from [get_session].

    The session and the database behind it are library code.  They are
    modelled after the configuration the repository's tests run the service
    on ([test_main.py], [session_fixture]): SQLModel over SQLite.

    - The table [todo] is a rowid table whose [id] column is the INTEGER
      PRIMARY KEY, a signed 64-bit integer.  Its rows are kept in ascending
      [id] order and a [SELECT] without [ORDER BY] scans them in that order.
    - An [INSERT] that names no [id] takes the largest [id] in use plus one
      (1 on an empty table); once the largest [id] is 9223372036854775807,
      SQLite searches for an unused positive [id] at random and, if the
      search gives up, fails with "database or disk is full"
      ([OperationalError]).  What the search comes up with is not determined
      by the program; it is the parameter [random_rowid].
    - An [INSERT] naming an [id] already in use, or leaving [title] null,
      violates a constraint of the table and raises [IntegrityError].
    - An integer outside the signed 64-bit range cannot be bound to a
      statement: the driver raises [OverflowError].
    - A session runs a unit of work: [add] registers a transient object,
      attribute writes on a loaded object mark it modified, [delete] marks a
      loaded object, and [commit] flushes all of that to the table in one
      transaction (rolled back as a whole on error).  Leaving the [with]
      block of [get_session] discards whatever was not committed.
    - The body of a creation is turned into a [Todo] object without
      validation ([Todo] is a table class), so that its [title] may be
      missing or null when it reaches [create_todo].  The fields of a body
      are otherwise taken to be of the declared types: a string or an
      integer, null, or omitted.  What happens to a body with a field of
      another JSON type is outside the model. *)

From Stdlib Require Import ZArith List String Bool Lia Sorted.
Import ListNotations.

Local Open Scope string_scope.
Local Open Scope list_scope.
Local Open Scope Z_scope.

(** ** Data model *)

(** [class Todo(SQLModel, table=True)]: the table row and, as the source says,
    the same class used at the API level.  The annotation of [title] is
    [str]; an object of a table class can nevertheless hold [None] there. *)
Record Todo : Type := mkTodo {
  id : option Z;               (* id: int | None = Field(default=None, primary_key=True) *)
  title : option string;       (* title: str *)
  description : option string  (* description: str | None = Field(default=None) *)
}.

(** [class TodoUpdate(BaseModel)]. *)
Module TodoUpdate.
Record t : Type := mk {
  title : option string;        (* title: str | None = None *)
  description : option string   (* description: str | None = None *)
}.
End TodoUpdate.

(** The exceptions that can reach the framework. *)
Inductive exn : Type :=
| HTTPException (status_code : Z) (detail : string)
| IntegrityError
| OverflowError
| OperationalError
| InvalidRequestError.

(** The integers an INTEGER column holds and a statement can be bound to. *)
Definition int64_min : Z := -9223372036854775808.
Definition int64_max : Z := 9223372036854775807.

Definition is_int64 (i : Z) : bool :=
  Z.leb int64_min i && Z.leb i int64_max.
Arguments is_int64 : simpl never.

(** ** The table *)

Definition Table : Type := list Todo.

(** What the program does not determine: the outcome of SQLite's random
    search for an unused rowid on a table whose largest rowid is the largest
    integer, and whether SQLAlchemy can make an engine of a URL (its syntax,
    the dialect and the driver it names). *)
Class Platform : Type := {
  random_rowid : Table -> option Z;
  engine_available : string -> bool
}.

(** A platform to evaluate the properties on: the random search gives up, and
    an engine can be made of the URLs of SQLite. *)
Definition sample_platform : Platform :=
  {| random_rowid := fun _ => None;
     engine_available := fun url => String.prefix "sqlite://" url |}.

(** The rowid of a row: its [id], as the 64-bit integer the column holds. *)
Definition key (t : Todo) : option Z :=
  match id t with
  | Some j => if is_int64 j then Some j else None
  | None => None
  end.

Definition has_id (i : Z) (t : Todo) : bool :=
  match key t with
  | Some j => Z.eqb i j
  | None => false
  end.

(** The row stored under [i]: what [SELECT ... FROM todo WHERE id = i]
    returns. *)
Definition select_by_id (tbl : Table) (i : Z) : option Todo :=
  find (has_id i) tbl.

(** The largest rowid in the table, if any. *)
Fixpoint max_id (tbl : Table) : option Z :=
  match tbl with
  | [] => None
  | t :: tl =>
      match key t, max_id tl with
      | Some i, Some m => Some (Z.max i m)
      | Some i, None => Some i
      | None, m => m
      end
  end.

Definition id_above (k : Z) (t : Todo) : bool :=
  match key t with
  | Some j => Z.ltb k j
  | None => false
  end.

(** Puts row [r], whose key is [k], at its place in the [id] order. *)
Fixpoint place (k : Z) (r : Todo) (tbl : Table) : Table :=
  match tbl with
  | [] => [r]
  | t :: tl => if id_above k t then r :: t :: tl else t :: place k r tl
  end.

(** [UPDATE todo SET title = ..., description = ... WHERE id = k]. *)
Definition update_row (tbl : Table) (k : Z) (t : Todo) : Table :=
  map (fun r => if has_id k r then mkTodo (Some k) (title t) (description t) else r) tbl.

(** [DELETE FROM todo WHERE id = k]. *)
Definition delete_row (tbl : Table) (k : Z) : Table :=
  filter (fun r => negb (has_id k r)) tbl.

(** ** The session *)

Inductive instance_state : Type :=
| Transient | Pending | Persistent | Deleted | Detached.

(** A Python object of class [Todo] as the session sees it. *)
Record Instance : Type := mkInstance {
  state : instance_state;
  modified : bool;
  obj : Todo
}.

(** Objects are addressed by reference: the index in [objects]. *)
Definition ref : Type := nat.

Record Session : Type := mkSession {
  table : Table;            (* the committed rows *)
  objects : list Instance   (* the objects alive during the request *)
}.

(** State and exceptions. *)
Definition M (A : Type) : Type := Session -> (A + exn) * Session.

Definition ret {A : Type} (a : A) : M A := fun s => (inl a, s).

Definition bind {A B : Type} (m : M A) (f : A -> M B) : M B :=
  fun s =>
    match m s with
    | (inl a, s') => f a s'
    | (inr e, s') => (inr e, s')
    end.

Definition raise {A : Type} (e : exn) : M A := fun s => (inr e, s).

Declare Scope session_scope.
Delimit Scope session_scope with session.
Notation "x <- m ;; k" := (bind m (fun x => k))
  (at level 100, m at next level, right associativity) : session_scope.
Notation "m ;; k" := (bind m (fun _ => k))
  (at level 100, right associativity) : session_scope.
Local Open Scope session_scope.

Fixpoint set_nth {A : Type} (n : nat) (a : A) (l : list A) : list A :=
  match l, n with
  | [], _ => []
  | _ :: tl, O => a :: tl
  | x :: tl, S n' => x :: set_nth n' a tl
  end.

(** A fresh Python object, as built from a request body. *)
Definition new_object (t : Todo) : M ref :=
  fun s =>
    (inl (List.length (objects s)),
     mkSession (table s) (objects s ++ [mkInstance Transient false t])).

(** Reading an object's attributes. *)
Definition deref (r : ref) : M Todo :=
  fun s =>
    match nth_error (objects s) r with
    | Some o => (inl (obj o), s)
    | None => (inr InvalidRequestError, s)
    end.

Definition modify (r : ref) (f : Instance -> Instance) : M unit :=
  fun s =>
    match nth_error (objects s) r with
    | Some o => (inl tt, mkSession (table s) (set_nth r (f o) (objects s)))
    | None => (inr InvalidRequestError, s)
    end.

(** [todo.title = v] *)
Definition setattr_title (r : ref) (v : string) : M unit :=
  modify r (fun o =>
    mkInstance (state o) true (mkTodo (id (obj o)) (Some v) (description (obj o)))).

(** [todo.description = v] *)
Definition setattr_description (r : ref) (v : string) : M unit :=
  modify r (fun o =>
    mkInstance (state o) true (mkTodo (id (obj o)) (title (obj o)) (Some v))).

(** [session.add(todo)]: a transient object becomes pending; an object the
    session already tracks stays as it is. *)
Definition session_add (r : ref) : M unit :=
  modify r (fun o =>
    match state o with
    | Transient => mkInstance Pending (modified o) (obj o)
    | _ => o
    end).

(** [session.delete(todo)] *)
Definition session_delete (r : ref) : M unit :=
  fun s =>
    match nth_error (objects s) r with
    | Some o =>
        match state o with
        | Persistent =>
            (inl tt, mkSession (table s)
                       (set_nth r (mkInstance Deleted (modified o) (obj o)) (objects s)))
        | _ => (inr InvalidRequestError, s)
        end
    | None => (inr InvalidRequestError, s)
    end.

Definition is_loaded (i : Z) (o : Instance) : bool :=
  match state o with
  | Persistent => has_id i (obj o)
  | _ => false
  end.

Fixpoint index_of {A : Type} (p : A -> bool) (l : list A) (n : nat) : option nat :=
  match l with
  | [] => None
  | x :: tl => if p x then Some n else index_of p tl (S n)
  end.

(** [session.get(Todo, i)]: the object of the identity map if the row is
    loaded already; else the [SELECT] is sent, which [i] cannot be bound to
    when it is no 64-bit integer, and its row, if any, becomes an object of
    the session. *)
Definition session_get (i : Z) : M (option ref) :=
  fun s =>
    match index_of (is_loaded i) (objects s) O with
    | Some r => (inl (Some r), s)
    | None =>
        if is_int64 i then
          match select_by_id (table s) i with
          | Some row =>
              (inl (Some (List.length (objects s))),
               mkSession (table s) (objects s ++ [mkInstance Persistent false row]))
          | None => (inl None, s)
          end
        else (inr OverflowError, s)
    end.

(** [session.exec(select(Todo)).all()]: the rows in table order.  The
    endpoint only returns them, so they are taken by value. *)
Definition session_exec_select_all : M (list Todo) :=
  fun s => (inl (table s), s).

(** [session.refresh(todo)]: reload the attributes from the row. *)
Definition session_refresh (r : ref) : M unit :=
  fun s =>
    match nth_error (objects s) r with
    | Some o =>
        match state o, id (obj o) with
        | Persistent, Some k =>
            match select_by_id (table s) k with
            | Some row =>
                (inl tt, mkSession (table s)
                           (set_nth r (mkInstance Persistent false row) (objects s)))
            | None => (inr InvalidRequestError, s)
            end
        | _, _ => (inr InvalidRequestError, s)
        end
    | None => (inr InvalidRequestError, s)
    end.

(** ** The HTTP data *)

#[local] Set Warnings "-register-all".
Inductive json : Type :=
| JNull
| JInt (n : Z)
| JStr (s : string)
| JArr (l : list json)
| JObj (l : list (string * json)).

(** A field of a JSON request body. *)
Inductive field (A : Type) : Type :=
| Omitted
| Null
| Value (a : A).
Arguments Omitted {A}.
Arguments Null {A}.
Arguments Value {A} a.

(** An omitted field gets the default of its attribute, which is [None] for
    every optional field of [Todo] and [TodoUpdate]; the [title] of a [Todo]
    has no default, and stays unset, which the table sees as null. *)
Definition field_value {A : Type} (f : field A) : option A :=
  match f with
  | Omitted => None
  | Null => None
  | Value a => Some a
  end.

Definition present {A : Type} (f : field A) : bool :=
  match f with
  | Omitted => false
  | _ => true
  end.

Inductive Request : Type :=
| POST_createTodo (id : field Z) (title : field string) (description : field string)
| GET_allTodo
| GET_todo (todo_id : Z)
| PUT_todo (todo_id : Z) (title description : field string)
| DELETE_todo (todo_id : Z).

Record Response : Type := mkResponse {
  status_code : Z;
  body : json
}.

Definition json_of_option {A : Type} (f : A -> json) (o : option A) : json :=
  match o with
  | Some a => f a
  | None => JNull
  end.

(** The JSON rendering of a [Todo] object. *)
Definition jsonable (t : Todo) : json :=
  JObj [("id", json_of_option JInt (id t));
        ("title", json_of_option JStr (title t));
        ("description", json_of_option JStr (description t))].

Fixpoint json_get (k : string) (l : list (string * json)) : option json :=
  match l with
  | [] => None
  | (k', v) :: tl => if String.eqb k k' then Some v else json_get k tl
  end.

(** Member [k] of a JSON object. *)
Definition member (k : string) (j : json) : option json :=
  match j with
  | JObj l => json_get k l
  | _ => None
  end.

(** How the framework answers: a returned value with status 200, an
    [HTTPException] with its status and detail, any other exception with
    status 500. *)
Definition response_of (r : json + exn) : Response :=
  match r with
  | inl j => mkResponse 200 j
  | inr (HTTPException c d) => mkResponse c (JObj [("detail", JStr d)])
  | inr _ => mkResponse 500 (JStr "Internal Server Error")
  end.

Definition not_found : exn := HTTPException 404 "Todo not found".

(** How a request for an id without a row ends: with the 404 of the
    endpoint, or before that in the driver. *)
Definition missing (i : Z) : exn :=
  if is_int64 i then not_found else OverflowError.

Definition not_found_response : Response :=
  mkResponse 404 (JObj [("detail", JStr "Todo not found")]).

Definition deleted_response : Response :=
  mkResponse 200 (JObj [("message", JStr "Todo deleted successfully")]).

Definition internal_error : Response :=
  mkResponse 500 (JStr "Internal Server Error").

(** The [id] a request addresses in its path. *)
Definition target (req : Request) : option Z :=
  match req with
  | GET_todo i | PUT_todo i _ _ | DELETE_todo i => Some i
  | POST_createTodo _ _ _ | GET_allTodo => None
  end.

(** The row an update leaves: each attribute of the patch that holds a value
    replaces the stored one. *)
Definition patched (row : Todo) (u : TodoUpdate.t) : Todo :=
  mkTodo (id row)
         (match TodoUpdate.title u with Some v => Some v | None => title row end)
         (match TodoUpdate.description u with Some v => Some v | None => description row end).

(** ** Invariants of the table *)

Definition id_lt (a b : Todo) : Prop :=
  match id a, id b with
  | Some i, Some j => i < j
  | _, _ => False
  end.

Definition keyed (t : Todo) : Prop := key t <> None.

(** Every row has a key, and the rows are in strictly ascending key order. *)
Definition table_ok (tbl : Table) : Prop :=
  Forall keyed tbl /\ StronglySorted id_lt tbl.

Definition non_null (j : option json) : Prop :=
  exists v, j = Some v /\ v <> JNull.

(** The row's [id] and [title] are not null. *)
Definition row_ok (t : Todo) : Prop :=
  non_null (member "id" (jsonable t)) /\ non_null (member "title" (jsonable t)).

Definition persisted_ok (db : Table) : Prop := Forall row_ok db.

(** ** Start-up of the module *)

(** The process environment once [load_dotenv()] has run. *)
Definition Environ : Type := list (string * string).

(** [os.getenv(k)] *)
Fixpoint getenv (environ : Environ) (k : string) : option string :=
  match environ with
  | [] => None
  | (k', v) :: tl => if String.eqb k k' then Some v else getenv tl k
  end.

(** Python's [not x] on a value that is a string or [None]. *)
Definition falsy (x : option string) : bool :=
  match x with
  | None => true
  | Some v => String.eqb v ""
  end.

Inductive Engine : Type :=
| mkEngine (url : string) (echo : bool).

Inductive startup : Type :=
| Started (engine : Engine)
| RuntimeError (msg : string)
| EngineError.

(** ** Sequences of creations *)



(** The largest rowid, 0 on the empty table. *)
Definition last_rowid (tbl : Table) : Z :=
  match max_id tbl with
  | Some m => m
  | None => 0
  end.

(** ** Sessions that outlive a request *)

(** What holds of a session between two requests of a test: no object has
    work pending, every loaded object shows its row, and no two loaded
    objects stand for the same key. *)
Definition clean (o : Instance) : Prop :=
  state o = Detached \/ (state o = Persistent /\ modified o = false).

Definition in_sync (tbl : Table) (o : Instance) : Prop :=
  state o = Persistent ->
  exists k, id (obj o) = Some k /\ select_by_id tbl k = Some (obj o).

Definition is_persistent (o : Instance) : bool :=
  match state o with
  | Persistent => true
  | _ => false
  end.

Definition loaded_keys (os : list Instance) : list (option Z) :=
  map (fun o => id (obj o)) (filter is_persistent os).

Definition coherent (s : Session) : Prop :=
  Forall clean (objects s) /\
  Forall (in_sync (table s)) (objects s) /\
  NoDup (loaded_keys (objects s)).

Section Service.

Context {platform : Platform}.

(** ** Writing to the table *)

(** A candidate of the random search is taken if it is positive, fits the
    column and is not in use. *)
Definition usable_rowid (tbl : Table) (k : Z) : bool :=
  Z.ltb 0 k && Z.leb k int64_max && negb (existsb (has_id k) tbl).

(** The [id] an [INSERT] without one receives, if the table has one to
    give. *)
Definition new_rowid (tbl : Table) : option Z :=
  match max_id tbl with
  | None => Some 1
  | Some m =>
      if Z.ltb m int64_max then Some (m + 1)
      else
        match random_rowid tbl with
        | Some k => if usable_rowid tbl k then Some k else None
        | None => None
        end
  end.

(** [INSERT INTO todo (id, title, description) VALUES ...]: the stored row
    and the new table. *)
Definition insert_row (tbl : Table) (t : Todo) : (Todo * Table) + exn :=
  match id t with
  | None =>
      match new_rowid tbl with
      | None => inr OperationalError
      | Some k =>
          match title t with
          | None => inr IntegrityError
          | Some _ =>
              let r := mkTodo (Some k) (title t) (description t) in
              inl (r, place k r tbl)
          end
      end
  | Some k =>
      if is_int64 k then
        match title t with
        | None => inr IntegrityError
        | Some _ =>
            if existsb (has_id k) tbl then inr IntegrityError
            else inl (t, place k t tbl)
        end
      else inr OverflowError
  end.

(** The flush of one object. *)
Definition flush_one (o : Instance) (tbl : Table) : (Instance * Table) + exn :=
  match state o with
  | Pending =>
      match insert_row tbl (obj o) with
      | inl (row, tbl') => inl (mkInstance Persistent false row, tbl')
      | inr e => inr e
      end
  | Persistent =>
      if modified o then
        match id (obj o) with
        | Some k => inl (mkInstance Persistent false (obj o), update_row tbl k (obj o))
        | None => inr InvalidRequestError
        end
      else inl (o, tbl)
  | Deleted =>
      match id (obj o) with
      | Some k => inl (mkInstance Detached false (obj o), delete_row tbl k)
      | None => inr InvalidRequestError
      end
  | _ => inl (o, tbl)
  end.

Fixpoint flush (os : list Instance) (tbl : Table) : (list Instance * Table) + exn :=
  match os with
  | [] => inl ([], tbl)
  | o :: tl =>
      match flush_one o tbl with
      | inl (o', tbl') =>
          match flush tl tbl' with
          | inl (tl', tbl'') => inl (o' :: tl', tbl'')
          | inr e => inr e
          end
      | inr e => inr e
      end
  end.

(** [session.commit()]: flush and commit, or roll back and raise. *)
Definition session_commit : M unit :=
  fun s =>
    match flush (objects s) (table s) with
    | inl (os, tbl) => (inl tt, mkSession tbl os)
    | inr e => (inr e, s)
    end.

(** ** The endpoints of [main.py] *)

(** [@app.post("/createTodo")] *)
Definition create_todo (todo : ref) : M ref :=
  session_add todo ;;
  session_commit ;;
  session_refresh todo ;;
  ret todo.

(** [@app.get("/allTodo")] *)
Definition all_todo : M (list Todo) :=
  todos <- session_exec_select_all ;;
  ret todos.

(** [@app.get("/todo/{todo_id}")] *)
Definition todo_by_id (todo_id : Z) : M ref :=
  todo <- session_get todo_id ;;
  match todo with
  | None => raise not_found
  | Some todo => ret todo
  end.

(** [@app.put("/todo/{todo_id}")] *)
Definition update_todo (todo_id : Z) (todo_update : TodoUpdate.t) : M ref :=
  todo <- session_get todo_id ;;
  match todo with
  | None => raise not_found
  | Some todo =>
      match TodoUpdate.title todo_update with
      | Some v => setattr_title todo v
      | None => ret tt
      end ;;
      match TodoUpdate.description todo_update with
      | Some v => setattr_description todo v
      | None => ret tt
      end ;;
      session_add todo ;;
      session_commit ;;
      session_refresh todo ;;
      ret todo
  end.

(** The value [delete_todo] returns: the dict with the one key [message]. *)
Definition deleted_message : string := "Todo deleted successfully".

(** [@app.delete("/todo/{todo_id}")] *)
Definition delete_todo (todo_id : Z) : M string :=
  todo <- session_get todo_id ;;
  match todo with
  | None => raise not_found
  | Some todo =>
      session_delete todo ;;
      session_commit ;;
      ret deleted_message
  end.

(** ** The HTTP boundary *)

(** One request: the session of [get_session] is opened on the database and
    the endpoint runs in it.  What the session has committed is the database
    afterwards. *)
Definition in_session {A : Type} (m : M A) (db : Table) : (A + exn) * Table :=
  let '(r, s) := m (mkSession db []) in (r, table s).

Definition respond (m : M json) (db : Table) : Response * Table :=
  let '(r, db') := in_session m db in (response_of r, db').

Definition returning_todo (m : M ref) : M json :=
  r <- m ;;
  t <- deref r ;;
  ret (jsonable t).

(** The endpoint a request is routed to, applied to the parsed path and body,
    with its return value rendered as JSON. *)
Definition endpoint (req : Request) : M json :=
  match req with
  | POST_createTodo i t d =>
      returning_todo
        (todo <- new_object (mkTodo (field_value i) (field_value t) (field_value d)) ;;
         create_todo todo)
  | GET_allTodo =>
      todos <- all_todo ;; ret (JArr (map jsonable todos))
  | GET_todo todo_id =>
      returning_todo (todo_by_id todo_id)
  | PUT_todo todo_id t d =>
      returning_todo
        (update_todo todo_id (TodoUpdate.mk (field_value t) (field_value d)))
  | DELETE_todo todo_id =>
      m <- delete_todo todo_id ;; ret (JObj [("message", JStr m)])
  end.

Definition app (req : Request) (db : Table) : Response * Table :=
  respond (endpoint req) db.

(** The database after a sequence of requests. *)
Fixpoint run (reqs : list Request) (db : Table) : Table :=
  match reqs with
  | [] => db
  | req :: tl => run tl (snd (app req db))
  end.

(** The states of the store: what some sequence of requests leaves of the
    empty table. *)
Definition reachable (db : Table) : Prop :=
  exists reqs, db = run reqs [].

(** ** Outcomes and the notions the properties are stated with *)

(** The result of the endpoint and the database it leaves. *)
Definition outcome (req : Request) (db : Table) : (json + exn) * Table :=
  in_session (endpoint req) db.

(** The Todos [all_todo] returns on database [db]. *)
Definition list_all (db : Table) : list Todo :=
  match fst (in_session all_todo db) with
  | inl todos => todos
  | inr _ => []
  end.

(** The request is a creation answered with a Todo whose id is [i]. *)
Definition stores_id (i : Z) (req : Request) (db : Table) : Prop :=
  match req with
  | POST_createTodo _ _ _ => member "id" (body (fst (app req db))) = Some (JInt i)
  | _ => False
  end.

(** No request of the sequence, run from [db], creates a row with id [i]. *)
Fixpoint never_stores (i : Z) (reqs : list Request) (db : Table) : Prop :=
  match reqs with
  | [] => True
  | req :: tl => ~ stores_id i req db /\ never_stores i tl (snd (app req db))
  end.

(** [create_engine(url, echo=echo)] *)
Definition create_engine (url : string) (echo : bool) : option Engine :=
  if engine_available url then Some (mkEngine url echo) else None.

(** The module level of [main.py]: read [DB_URL], refuse to start without
    it, create the engine. *)
Definition main_module (environ : Environ) : startup :=
  let DATABASE_URL := getenv environ "DB_URL" in
  if falsy DATABASE_URL then
    RuntimeError "DB_URL is not set in environment variables"
  else
    match DATABASE_URL with
    | Some url =>
        match create_engine url true with
        | Some engine => Started engine
        | None => EngineError
        end
    | None => RuntimeError "DB_URL is not set in environment variables"
    end.

(** ** The client of the tests *)

(** [session_fixture] of [test_main.py]: a session on a fresh in-memory
    database whose table has been created and is empty. *)
Definition session_fixture : Session := mkSession [] [].

(** [client_fixture]: [get_session] is overridden by a function that returns
    the fixture's session, so every request of a test runs in that one
    session, which stays open from one request to the next. *)
Definition client (req : Request) (session : Session) : Response * Session :=
  let '(r, session') := endpoint req session in (response_of r, session').

Fixpoint client_run (reqs : list Request) (session : Session) : list Response * Session :=
  match reqs with
  | [] => ([], session)
  | req :: tl =>
      let '(r, s') := client req session in
      let '(rs, s'') := client_run tl s' in
      (r :: rs, s'')
  end.

(** The responses of the application proper, a session per request. *)
Fixpoint responses (reqs : list Request) (db : Table) : list Response :=
  match reqs with
  | [] => []
  | req :: tl => fst (app req db) :: responses tl (snd (app req db))
  end.

(** ** Properties as the specification words them, where the code differs *)

(** The reading of the update contract in which every field that occurs in
    the request body, whatever its value, replaces the stored one. *)
Definition update_overwrites_present : Prop :=
  forall (db : Table) (i : Z) (row : Todo) (t d : field string),
    select_by_id db i = Some row ->
    exists row',
      fst (app (PUT_todo i t d) db) = mkResponse 200 (jsonable row') /\
      select_by_id (snd (app (PUT_todo i t d) db)) i = Some row' /\
      (if present t then title row' = field_value t
       else title row' = title row) /\
      (if present d then description row' = field_value d
       else description row' = description row).



(** Insertion order: a Todo that has just been created is listed after all
    the Todos listed before its creation. *)
Definition listed_in_creation_order : Prop :=
  forall (db db' : Table) (i : field Z) (t d : field string) (row : Todo),
    reachable db ->
    app (POST_createTodo i t d) db = (mkResponse 200 (jsonable row), db') ->
    list_all db' = list_all db ++ [row].


(** * Properties *)

(** ** The repository's tests, replayed *)

Example ex_create :
  fst (app (POST_createTodo Omitted (Value "Test Todo") (Value "Test Description")) []) =
  mkResponse 200 (JObj [("id", JInt 1); ("title", JStr "Test Todo");
                        ("description", JStr "Test Description")]).
Proof. reflexivity. Qed.

Example ex_create_then_list :
  let db1 := snd (app (POST_createTodo Omitted (Value "Todo 1") (Value "Desc 1")) []) in
  let db2 := snd (app (POST_createTodo Omitted (Value "Todo 2") (Value "Desc 2")) db1) in
  fst (app GET_allTodo db2) =
  mkResponse 200 (JArr [jsonable (mkTodo (Some 1) (Some "Todo 1") (Some "Desc 1"));
                        jsonable (mkTodo (Some 2) (Some "Todo 2") (Some "Desc 2"))]).
Proof. reflexivity. Qed.

Example ex_get_not_found : app (GET_todo 999) [] = (not_found_response, []).
Proof. reflexivity. Qed.

Example ex_update :
  let db1 := snd (app (POST_createTodo Omitted (Value "Original Title")
                         (Value "Original Desc")) []) in
  app (PUT_todo 1 (Value "Updated Title") (Value "Updated Desc")) db1 =
  (mkResponse 200 (jsonable (mkTodo (Some 1) (Some "Updated Title") (Some "Updated Desc"))),
   [mkTodo (Some 1) (Some "Updated Title") (Some "Updated Desc")]).
Proof. reflexivity. Qed.

Example ex_update_partial :
  let db1 := snd (app (POST_createTodo Omitted (Value "Original Title")
                         (Value "Original Desc")) []) in
  fst (app (PUT_todo 1 (Value "Only Title Updated") Omitted) db1) =
  mkResponse 200 (jsonable (mkTodo (Some 1) (Some "Only Title Updated")
                              (Some "Original Desc"))).
Proof. reflexivity. Qed.

Example ex_update_not_found :
  app (PUT_todo 999 (Value "New Title") Omitted) [] = (not_found_response, []).
Proof. reflexivity. Qed.

Example ex_delete_then_get :
  let db1 := snd (app (POST_createTodo Omitted (Value "Delete Me")
                         (Value "To be deleted")) []) in
  let '(r, db2) := app (DELETE_todo 1) db1 in
  r = deleted_response /\ fst (app (GET_todo 1) db2) = not_found_response.
Proof. split; reflexivity. Qed.

Example ex_delete_not_found :
  app (DELETE_todo 999) [] = (not_found_response, []).
Proof. reflexivity. Qed.

(** ** The corners of the store *)

(** A creation that names an id in use: the insert violates the key. *)
Example ex_create_duplicate_id :
  let db1 := snd (app (POST_createTodo Omitted (Value "a") Omitted) []) in
  outcome (POST_createTodo (Value 1) (Value "b") Omitted) db1 = (inr IntegrityError, db1).
Proof. reflexivity. Qed.

(** A creation without a title, or with a null one: the insert violates the
    NOT NULL constraint of the column. *)
Example ex_create_without_title :
  outcome (POST_createTodo Omitted Omitted (Value "d")) [] = (inr IntegrityError, []) /\
  app (POST_createTodo Omitted Null (Value "d")) [] = (internal_error, []).
Proof. split; reflexivity. Qed.

(** An id that is no 64-bit integer, in the path or in the body. *)
Example ex_id_out_of_range :
  app (GET_todo 9223372036854775808) [] = (internal_error, []) /\
  outcome (DELETE_todo (-9223372036854775809)) [] = (inr OverflowError, []) /\
  outcome (POST_createTodo (Value 9223372036854775808) (Value "a") Omitted) []
    = (inr OverflowError, []).
Proof. repeat split; reflexivity. Qed.

(** The id of a deleted last row is handed out again. *)
Example ex_id_after_delete :
  run [POST_createTodo Omitted (Value "a") Omitted;
       POST_createTodo Omitted (Value "b") Omitted;
       DELETE_todo 2; POST_createTodo Omitted (Value "c") Omitted] [] =
  [mkTodo (Some 1) (Some "a") None; mkTodo (Some 2) (Some "c") None].
Proof. reflexivity. Qed.

(** With the largest id in use, the id of the next creation is the one the
    random search finds, and the new row is not listed last. *)
Example ex_random_rowid :
  let db := [mkTodo (Some 9223372036854775807) (Some "a") None] in
  random_rowid db = Some 5 ->
  app (POST_createTodo Omitted (Value "b") Omitted) db =
  (mkResponse 200 (jsonable (mkTodo (Some 5) (Some "b") None)),
   [mkTodo (Some 5) (Some "b") None; mkTodo (Some 9223372036854775807) (Some "a") None]).
Proof.
  intros db H. unfold app, respond, in_session, endpoint, returning_todo, create_todo,
    bind, new_object, session_add, modify, session_commit. simpl.
  unfold flush_one, insert_row, new_rowid. simpl. fold db. rewrite H. reflexivity.
Qed.

(** ** Facts about the table *)

Lemma is_int64_spec (i : Z) :
  is_int64 i = true <-> int64_min <= i <= int64_max.
Proof.
  unfold is_int64. rewrite andb_true_iff, !Z.leb_le. tauto.
Qed.

Lemma key_Some (t : Todo) (i : Z) :
  key t = Some i <-> id t = Some i /\ is_int64 i = true.
Proof.
  unfold key. destruct (id t) as [j|].
  - destruct (is_int64 j) eqn:E; split.
    + intros H; injection H as <-. now split.
    + intros [H _]. exact H.
    + discriminate.
    + intros [H Hi]. injection H as <-. congruence.
  - split; [discriminate | intros [H _]; discriminate].
Qed.

Lemma key_id (t : Todo) (i : Z) : key t = Some i -> id t = Some i.
Proof. intros H. now apply key_Some in H. Qed.

Lemma key_mk (k : Z) (t : option string) (d : option string) :
  is_int64 k = true -> key (mkTodo (Some k) t d) = Some k.
Proof. intros H. apply key_Some. now split. Qed.

Lemma has_id_true (i : Z) (t : Todo) : has_id i t = true <-> key t = Some i.
Proof.
  unfold has_id. destruct (key t) as [j|].
  - rewrite Z.eqb_eq. split; intros H; [subst; reflexivity | now inversion H].
  - split; discriminate.
Qed.

Lemma has_id_false (i : Z) (t : Todo) : has_id i t = false <-> key t <> Some i.
Proof.
  rewrite <- has_id_true. destruct (has_id i t); split; congruence.
Qed.

Lemma select_by_id_key (tbl : Table) (i : Z) (row : Todo) :
  select_by_id tbl i = Some row -> key row = Some i.
Proof.
  intros H. apply find_some in H. now apply has_id_true.
Qed.

Lemma select_by_id_id (tbl : Table) (i : Z) (row : Todo) :
  select_by_id tbl i = Some row -> id row = Some i.
Proof.
  intros H. now apply key_id, select_by_id_key with tbl.
Qed.

Lemma select_by_id_int64 (tbl : Table) (i : Z) (row : Todo) :
  select_by_id tbl i = Some row -> is_int64 i = true.
Proof.
  intros H. apply select_by_id_key, key_Some in H. tauto.
Qed.

Lemma select_by_id_In (tbl : Table) (i : Z) (row : Todo) :
  select_by_id tbl i = Some row -> In row tbl.
Proof.
  intros H. now apply find_some in H.
Qed.

Lemma select_none_existsb (tbl : Table) (i : Z) :
  select_by_id tbl i = None <-> existsb (has_id i) tbl = false.
Proof.
  unfold select_by_id. induction tbl as [|t tl IH]; simpl.
  - tauto.
  - destruct (has_id i t); simpl; [split; discriminate | exact IH].
Qed.

Lemma In_key_select (tbl : Table) (t : Todo) (i : Z) :
  In t tbl -> key t = Some i -> select_by_id tbl i <> None.
Proof.
  intros Hin Hk Hn. apply select_none_existsb in Hn.
  assert (H : existsb (has_id i) tbl = true).
  { apply existsb_exists. exists t. split; [exact Hin | now apply has_id_true]. }
  congruence.
Qed.

Lemma place_select_same (tbl : Table) (k : Z) (r : Todo) :
  key r = Some k -> select_by_id tbl k = None ->
  select_by_id (place k r tbl) k = Some r.
Proof.
  intros Hr. apply has_id_true in Hr. unfold select_by_id.
  induction tbl as [|t tl IH]; simpl; intros Hn.
  - now rewrite Hr.
  - destruct (has_id k t) eqn:Ht; [discriminate|].
    destruct (id_above k t); simpl.
    + now rewrite Hr.
    + rewrite Ht. now apply IH.
Qed.

Lemma place_select_other (tbl : Table) (k j : Z) (r : Todo) :
  key r = Some k -> j <> k ->
  select_by_id (place k r tbl) j = select_by_id tbl j.
Proof.
  intros Hr Hjk.
  assert (Hf : has_id j r = false) by (apply has_id_false; congruence).
  unfold select_by_id. induction tbl as [|t tl IH]; simpl.
  - now rewrite Hf.
  - destruct (id_above k t); simpl.
    + now rewrite Hf.
    + destruct (has_id j t); [reflexivity | exact IH].
Qed.

Lemma place_In (tbl : Table) (k : Z) (r x : Todo) :
  In x (place k r tbl) <-> x = r \/ In x tbl.
Proof.
  induction tbl as [|t tl IH]; simpl.
  - intuition.
  - destruct (id_above k t); simpl; [intuition|]. rewrite IH. intuition.
Qed.

Lemma max_id_bound (tbl : Table) (t : Todo) (i : Z) :
  In t tbl -> key t = Some i -> exists m, max_id tbl = Some m /\ i <= m.
Proof.
  induction tbl as [|x tl IH]; simpl; [tauto|].
  intros [->|Hin] Hi.
  - rewrite Hi. destruct (max_id tl) as [m|]; eexists; split; try reflexivity; lia.
  - destruct (IH Hin Hi) as (m & -> & Hm).
    destruct (key x) as [j|]; eexists; split; try reflexivity; lia.
Qed.

Lemma max_id_attained (tbl : Table) (m : Z) :
  max_id tbl = Some m -> exists t, In t tbl /\ key t = Some m.
Proof.
  revert m. induction tbl as [|x tl IH]; simpl; intros m H; [discriminate|].
  destruct (key x) as [j|] eqn:Ej, (max_id tl) as [m'|] eqn:Em.
  - injection H as <-. destruct (Z.max_spec j m') as [[_ ->]|[_ ->]].
    + destruct (IH m' eq_refl) as (t & Hin & Hk). exists t. tauto.
    + exists x. tauto.
  - injection H as <-. exists x. tauto.
  - destruct (IH m H) as (t & Hin & Hk). exists t. tauto.
  - discriminate.
Qed.

(** An id the store hands out is a 64-bit integer that is not in use. *)
Lemma new_rowid_spec (tbl : Table) (k : Z) :
  new_rowid tbl = Some k -> is_int64 k = true /\ select_by_id tbl k = None.
Proof.
  unfold new_rowid. destruct (max_id tbl) as [m|] eqn:Em.
  - destruct (Z.ltb_spec m int64_max) as [Hlt|Hge].
    + intros H; injection H as <-.
      destruct (max_id_attained _ _ Em) as (t & Hin & Hk).
      apply key_Some in Hk. destruct Hk as [_ Hm]. apply is_int64_spec in Hm.
      split; [apply is_int64_spec; lia|].
      destruct (select_by_id tbl (m + 1)) as [row|] eqn:E; [|reflexivity].
      destruct (max_id_bound tbl row (m + 1) (select_by_id_In _ _ _ E)
                  (select_by_id_key _ _ _ E)) as (m' & Hm' & Hle).
      rewrite Em in Hm'. injection Hm' as <-. lia.
    + destruct (random_rowid tbl) as [c|]; [|discriminate].
      unfold usable_rowid. destruct (Z.ltb_spec 0 c) as [H0|H0]; simpl; [|discriminate].
      destruct (Z.leb_spec c int64_max) as [H1|H1]; simpl; [|discriminate].
      destruct (existsb (has_id c) tbl) eqn:Ex; simpl; [discriminate|].
      intros H; injection H as <-. split.
      * apply is_int64_spec. unfold int64_min. lia.
      * now apply select_none_existsb.
  - intros H; injection H as <-. split; [reflexivity|].
    destruct (select_by_id tbl 1) as [row|] eqn:E; [|reflexivity].
    destruct (max_id_bound tbl row 1 (select_by_id_In _ _ _ E)
                (select_by_id_key _ _ _ E)) as (m' & Hm' & _). congruence.
Qed.

(** As long as the largest integer is not in use, the id handed out is the
    one above the largest in use. *)
Lemma new_rowid_next (tbl : Table) :
  select_by_id tbl int64_max = None ->
  new_rowid tbl = Some (last_rowid tbl + 1) /\
  (forall t i, In t tbl -> key t = Some i -> i < last_rowid tbl + 1).
Proof.
  intros Hfree. unfold new_rowid, last_rowid. destruct (max_id tbl) as [m|] eqn:Em.
  - destruct (max_id_attained _ _ Em) as (t & Hin & Hk).
    assert (Hm : m < int64_max).
    { pose proof Hk as Hk'. apply key_Some in Hk'. destruct Hk' as [_ Hr].
      apply is_int64_spec in Hr.
      assert (m <> int64_max) by (intros ->; now apply (In_key_select tbl t int64_max)).
      lia. }
    apply Z.ltb_lt in Hm. rewrite Hm. split; [reflexivity|].
    intros x i Hx Hi. destruct (max_id_bound tbl x i Hx Hi) as (m' & Hm' & Hle).
    rewrite Em in Hm'. injection Hm' as <-. lia.
  - split; [reflexivity|]. intros x i Hx Hi.
    destruct (max_id_bound tbl x i Hx Hi) as (m' & Hm' & _). congruence.
Qed.

Lemma place_last (tbl : Table) (k : Z) (r : Todo) :
  (forall t i, In t tbl -> key t = Some i -> i < k) ->
  place k r tbl = tbl ++ [r].
Proof.
  induction tbl as [|t tl IH]; simpl; intros H; [reflexivity|].
  assert (Ht : id_above k t = false).
  { unfold id_above. destruct (key t) as [j|] eqn:E; [|reflexivity].
    apply Z.ltb_ge. specialize (H t j (or_introl eq_refl) E). lia. }
  rewrite Ht, IH; [reflexivity|]. intros; eapply H; eauto.
Qed.

Lemma update_row_ids (tbl : Table) (k : Z) (t : Todo) :
  map id (update_row tbl k t) = map id tbl.
Proof.
  unfold update_row. rewrite map_map. apply map_ext. intros r.
  destruct (has_id k r) eqn:E; [|reflexivity]. simpl. symmetry.
  now apply key_id, has_id_true.
Qed.

Lemma update_row_select_same (tbl : Table) (k : Z) (t row : Todo) :
  select_by_id tbl k = Some row ->
  select_by_id (update_row tbl k t) k = Some (mkTodo (Some k) (title t) (description t)).
Proof.
  intros Hs. pose proof (select_by_id_int64 _ _ _ Hs) as Hk.
  assert (Hn : forall a b, has_id k (mkTodo (Some k) a b) = true).
  { intros a b. apply has_id_true. now apply key_mk. }
  revert Hs. unfold select_by_id, update_row.
  induction tbl as [|x tl IH]; simpl; [discriminate|].
  destruct (has_id k x) eqn:E; simpl.
  - now rewrite Hn.
  - rewrite E. exact IH.
Qed.

Lemma update_row_select_other (tbl : Table) (k j : Z) (t : Todo) :
  j <> k -> select_by_id (update_row tbl k t) j = select_by_id tbl j.
Proof.
  intros Hjk. unfold select_by_id, update_row. induction tbl as [|x tl IH]; simpl; [reflexivity|].
  destruct (has_id k x) eqn:E; simpl.
  - apply has_id_true in E.
    assert (Hx : has_id j x = false) by (apply has_id_false; congruence).
    rewrite Hx.
    assert (Hy : has_id j (mkTodo (Some k) (title t) (description t)) = false).
    { apply has_id_false. intros H. apply key_id in H. simpl in H. congruence. }
    rewrite Hy. exact IH.
  - destruct (has_id j x); [reflexivity | exact IH].
Qed.

Lemma delete_row_select_same (tbl : Table) (k : Z) :
  select_by_id (delete_row tbl k) k = None.
Proof.
  unfold select_by_id, delete_row. induction tbl as [|x tl IH]; simpl; [reflexivity|].
  destruct (has_id k x) eqn:E; simpl; [exact IH | now rewrite E].
Qed.

Lemma delete_row_select_other (tbl : Table) (k j : Z) :
  j <> k -> select_by_id (delete_row tbl k) j = select_by_id tbl j.
Proof.
  intros Hjk. unfold select_by_id, delete_row. induction tbl as [|x tl IH]; simpl; [reflexivity|].
  destruct (has_id k x) eqn:E; simpl.
  - apply has_id_true in E.
    assert (Hx : has_id j x = false) by (apply has_id_false; congruence).
    now rewrite Hx.
  - destruct (has_id j x); [reflexivity | exact IH].
Qed.

Lemma delete_row_In (tbl : Table) (k : Z) (x : Todo) :
  In x (delete_row tbl k) <-> In x tbl /\ key x <> Some k.
Proof.
  unfold delete_row. rewrite filter_In, negb_true_iff, has_id_false. tauto.
Qed.

(** ** What each request does to the database *)

Lemma app_outcome (req : Request) (db : Table) :
  app req db = (response_of (fst (outcome req db)), snd (outcome req db)).
Proof.
  unfold app, respond, outcome. destruct (in_session (endpoint req) db). reflexivity.
Qed.

Lemma response_of_missing (i : Z) :
  response_of (inr (missing i)) =
  if is_int64 i then not_found_response else internal_error.
Proof. unfold missing. destruct (is_int64 i); reflexivity. Qed.

Ltac run_endpoint :=
  unfold outcome, in_session, endpoint, returning_todo, create_todo, all_todo,
    todo_by_id, update_todo, delete_todo, bind, session_get; simpl.

Lemma outcome_list (db : Table) :
  outcome GET_allTodo db = (inl (JArr (map jsonable db)), db).
Proof. reflexivity. Qed.

Lemma outcome_get (db : Table) (i : Z) :
  outcome (GET_todo i) db =
  (match select_by_id db i with
   | Some row => inl (jsonable row)
   | None => inr (missing i)
   end, db).
Proof.
  run_endpoint. unfold missing. destruct (select_by_id db i) as [row|] eqn:E.
  - rewrite (select_by_id_int64 _ _ _ E). reflexivity.
  - destruct (is_int64 i); reflexivity.
Qed.

Lemma outcome_delete (db : Table) (i : Z) :
  outcome (DELETE_todo i) db =
  match select_by_id db i with
  | Some _ => (inl (JObj [("message", JStr deleted_message)]), delete_row db i)
  | None => (inr (missing i), db)
  end.
Proof.
  run_endpoint. unfold missing. destruct (select_by_id db i) as [row|] eqn:E.
  - rewrite (select_by_id_int64 _ _ _ E).
    pose proof (select_by_id_id _ _ _ E) as Hid.
    destruct row as [ri rt rd]. simpl in Hid. subst ri. reflexivity.
  - destruct (is_int64 i); reflexivity.
Qed.

Lemma outcome_update_found (db : Table) (i : Z) (t d : field string) (row : Todo) :
  select_by_id db i = Some row ->
  outcome (PUT_todo i t d) db =
  (inl (jsonable (patched row (TodoUpdate.mk (field_value t) (field_value d)))),
   match field_value t, field_value d with
   | None, None => db
   | _, _ => update_row db i (patched row (TodoUpdate.mk (field_value t) (field_value d)))
   end).
Proof.
  intros E. pose proof (select_by_id_id _ _ _ E) as Hid.
  run_endpoint. rewrite (select_by_id_int64 _ _ _ E), E.
  destruct row as [ri rt rd]. simpl in Hid. subst ri.
  destruct (field_value t) as [vt|], (field_value d) as [vd|]; simpl;
    unfold session_refresh; simpl;
    try (erewrite update_row_select_same by exact E; reflexivity).
  rewrite E. reflexivity.
Qed.

Lemma outcome_update_missing (db : Table) (i : Z) (t d : field string) :
  select_by_id db i = None ->
  outcome (PUT_todo i t d) db = (inr (missing i), db).
Proof.
  intros E. run_endpoint. unfold missing. rewrite E. destruct (is_int64 i); reflexivity.
Qed.

(** What a successful insert has done. *)
Lemma insert_row_inl (tbl tbl' : Table) (t row : Todo) :
  insert_row tbl t = inl (row, tbl') ->
  exists k,
    key row = Some k /\ select_by_id tbl k = None /\ tbl' = place k row tbl /\
    row = mkTodo (Some k) (title t) (description t) /\
    title t <> None /\ (id t = None \/ id t = Some k).
Proof.
  unfold insert_row. destruct t as [ti tt td]. simpl. destruct ti as [k|].
  - destruct (is_int64 k) eqn:Hk; [|discriminate].
    destruct tt as [v|]; [|discriminate].
    destruct (existsb (has_id k) tbl) eqn:Ex; [discriminate|].
    intros H; injection H as <- <-. exists k.
    split; [now apply key_mk|]. split; [now apply select_none_existsb|].
    repeat split; try discriminate. now right.
  - destruct (new_rowid tbl) as [k|] eqn:En; [|discriminate].
    destruct tt as [v|]; [|discriminate].
    intros H; injection H as <- <-. exists k.
    destruct (new_rowid_spec _ _ En) as [Hk Hfree].
    split; [now apply key_mk|]. split; [exact Hfree|].
    repeat split; try discriminate. now left.
Qed.

(** The exceptions of an insert, and what brings each about. *)
Lemma insert_row_inr (tbl : Table) (t : Todo) (e : exn) :
  insert_row tbl t = inr e ->
  (e = OverflowError /\ exists k, id t = Some k /\ is_int64 k = false) \/
  (e = IntegrityError /\
   (title t = None \/ exists k, id t = Some k /\ select_by_id tbl k <> None)) \/
  (e = OperationalError /\ id t = None /\ select_by_id tbl int64_max <> None).
Proof.
  unfold insert_row. destruct (id t) as [k|].
  - destruct (is_int64 k) eqn:Hk.
    + destruct (title t) as [v|].
      * destruct (existsb (has_id k) tbl) eqn:Ex; [|discriminate].
        intros H; injection H as <-. right. left. split; [reflexivity|]. right.
        exists k. split; [reflexivity|]. intros Hn.
        apply select_none_existsb in Hn. congruence.
      * intros H; injection H as <-. right. left. split; [reflexivity | now left].
    + intros H; injection H as <-. left. split; [reflexivity|]. now exists k.
  - destruct (new_rowid tbl) as [k|] eqn:En.
    + destruct (title t) as [v|]; [discriminate|].
      intros H; injection H as <-. right. left. split; [reflexivity | now left].
    + intros H; injection H as <-. right. right. split; [reflexivity|].
      split; [reflexivity|]. intros Hfree.
      destruct (new_rowid_next tbl Hfree) as [Hnext _]. congruence.
Qed.

Lemma outcome_create (db : Table) (i : field Z) (t d : field string) :
  outcome (POST_createTodo i t d) db =
  match insert_row db (mkTodo (field_value i) (field_value t) (field_value d)) with
  | inl (row, db') => (inl (jsonable row), db')
  | inr e => (inr e, db)
  end.
Proof.
  run_endpoint.
  unfold new_object, session_add, modify, session_commit. simpl. unfold flush_one. simpl.
  destruct (insert_row db _) as [[row db']|e] eqn:E; [|reflexivity].
  destruct (insert_row_inl _ _ _ _ E) as (k & Hk & Hfree & -> & -> & _).
  simpl. unfold session_refresh. simpl.
  rewrite place_select_same by assumption. reflexivity.
Qed.

Lemma app_list (db : Table) :
  app GET_allTodo db = (mkResponse 200 (JArr (map jsonable db)), db).
Proof. reflexivity. Qed.

Lemma app_get (db : Table) (i : Z) :
  app (GET_todo i) db =
  (match select_by_id db i with
   | Some row => mkResponse 200 (jsonable row)
   | None => response_of (inr (missing i))
   end, db).
Proof.
  rewrite app_outcome, outcome_get. destruct (select_by_id db i); reflexivity.
Qed.

Lemma app_delete (db : Table) (i : Z) :
  app (DELETE_todo i) db =
  match select_by_id db i with
  | Some _ => (deleted_response, delete_row db i)
  | None => (response_of (inr (missing i)), db)
  end.
Proof.
  rewrite app_outcome, outcome_delete. destruct (select_by_id db i); reflexivity.
Qed.

Lemma app_update_found (db : Table) (i : Z) (t d : field string) (row : Todo) :
  select_by_id db i = Some row ->
  app (PUT_todo i t d) db =
  (mkResponse 200 (jsonable (patched row (TodoUpdate.mk (field_value t) (field_value d)))),
   match field_value t, field_value d with
   | None, None => db
   | _, _ => update_row db i (patched row (TodoUpdate.mk (field_value t) (field_value d)))
   end).
Proof.
  intros E. rewrite app_outcome, (outcome_update_found _ _ _ _ _ E). reflexivity.
Qed.

Lemma app_update_missing (db : Table) (i : Z) (t d : field string) :
  select_by_id db i = None ->
  app (PUT_todo i t d) db = (response_of (inr (missing i)), db).
Proof.
  intros E. rewrite app_outcome, (outcome_update_missing _ _ _ _ E). reflexivity.
Qed.

Lemma app_create (db : Table) (i : field Z) (t d : field string) :
  app (POST_createTodo i t d) db =
  match insert_row db (mkTodo (field_value i) (field_value t) (field_value d)) with
  | inl (row, db') => (mkResponse 200 (jsonable row), db')
  | inr _ => (internal_error, db)
  end.
Proof.
  rewrite app_outcome, outcome_create.
  destruct (insert_row db _) as [[row db']|e] eqn:E; [reflexivity|].
  apply insert_row_inr in E. destruct E as [[-> _]|[[-> _]|[-> _]]]; reflexivity.
Qed.

(** A response with status 404 is the not-found response of an id that is a
    64-bit integer. *)
Lemma missing_404 (i : Z) :
  status_code (response_of (inr (missing i))) = 404 -> is_int64 i = true.
Proof. unfold missing. destruct (is_int64 i); [reflexivity | discriminate]. Qed.

Lemma missing_int64 (i : Z) : is_int64 i = true -> missing i = not_found.
Proof. unfold missing. now intros ->. Qed.

(** ** The invariant of the table *)

Lemma table_ok_nil : table_ok [].
Proof. split; constructor. Qed.

Lemma table_ok_cons (t : Todo) (tl : Table) :
  table_ok (t :: tl) <-> keyed t /\ Forall (id_lt t) tl /\ table_ok tl.
Proof.
  unfold table_ok. split.
  - intros [Hk Hs]. inversion Hk; subst. apply StronglySorted_inv in Hs. tauto.
  - intros (Ht & Hlt & Hk & Hs). split; constructor; assumption.
Qed.

Lemma id_lt_trans (a b c : Todo) : id_lt a b -> id_lt b c -> id_lt a c.
Proof.
  unfold id_lt. destruct (id a), (id b), (id c); try tauto. lia.
Qed.

Lemma keyed_key (t : Todo) : keyed t -> exists j, key t = Some j /\ id t = Some j.
Proof.
  unfold keyed. destruct (key t) as [j|] eqn:E; [|congruence].
  intros _. exists j. split; [reflexivity | now apply key_id].
Qed.

Lemma key_same_id (a b : Todo) : id a = id b -> key a = key b.
Proof. unfold key. now intros ->. Qed.

Lemma place_ok (tbl : Table) (k : Z) (r : Todo) :
  key r = Some k -> select_by_id tbl k = None ->
  table_ok tbl -> table_ok (place k r tbl).
Proof.
  intros Hr. pose proof (key_id _ _ Hr) as Hrid.
  assert (Hrk : keyed r) by (unfold keyed; congruence).
  induction tbl as [|t tl IH]; simpl; intros Hn Hok.
  - apply table_ok_cons. split; [exact Hrk|]. split; [constructor | apply table_ok_nil].
  - apply table_ok_cons in Hok. destruct Hok as (Hk & Hlt & Hok).
    unfold select_by_id in Hn. simpl in Hn.
    destruct (has_id k t) eqn:Ht; [discriminate|].
    unfold id_above. apply has_id_false in Ht.
    destruct (keyed_key _ Hk) as (j & Ej & Eid). rewrite Ej.
    destruct (Z.ltb_spec k j) as [Hkj|Hkj].
    + assert (Hrt : id_lt r t) by (unfold id_lt; now rewrite Hrid, Eid).
      apply table_ok_cons. split; [exact Hrk|]. split.
      * constructor; [exact Hrt|].
        eapply Forall_impl; [|exact Hlt]. intros x Hx. eapply id_lt_trans; eauto.
      * apply table_ok_cons. split; [exact Hk|]. split; assumption.
    + apply table_ok_cons. split; [exact Hk|]. split.
      * apply Forall_forall. intros x Hx. apply place_In in Hx. destruct Hx as [->|Hx].
        -- unfold id_lt. rewrite Eid, Hrid. assert (j <> k) by congruence. lia.
        -- rewrite Forall_forall in Hlt. now apply Hlt.
      * apply IH; assumption.
Qed.

Lemma table_ok_ids (a b : Table) :
  map id a = map id b -> table_ok a -> table_ok b.
Proof.
  revert b. induction a as [|x a IH]; intros [|y b] E; simpl in E; try discriminate.
  - trivial.
  - injection E as Exy Eab. intros Hok.
    apply table_ok_cons in Hok. destruct Hok as (Hk & Hlt & Hok).
    apply table_ok_cons. split.
    { unfold keyed in *. now rewrite <- (key_same_id _ _ Exy). }
    split; [|now apply IH].
    assert (Hm : Forall (fun o => match id y, o with Some i, Some j => i < j | _, _ => False end)
                        (map id b)).
    { rewrite <- Eab, <- Exy. apply Forall_map. exact Hlt. }
    apply Forall_map in Hm. exact Hm.
Qed.

Lemma update_row_ok (tbl : Table) (k : Z) (t : Todo) :
  table_ok tbl -> table_ok (update_row tbl k t).
Proof.
  apply table_ok_ids. symmetry. apply update_row_ids.
Qed.

Lemma delete_row_ok (tbl : Table) (k : Z) :
  table_ok tbl -> table_ok (delete_row tbl k).
Proof.
  induction tbl as [|t tl IH]; simpl; intros Hok; [exact Hok|].
  apply table_ok_cons in Hok. destruct Hok as (Hk & Hlt & Hok).
  destruct (has_id k t); simpl; [now apply IH|].
  apply table_ok_cons. split; [exact Hk|]. split; [|now apply IH].
  apply Forall_forall. intros x Hx. apply delete_row_In in Hx.
  rewrite Forall_forall in Hlt. now apply Hlt.
Qed.

Lemma insert_row_ok (tbl : Table) (t row : Todo) (tbl' : Table) :
  insert_row tbl t = inl (row, tbl') -> table_ok tbl -> table_ok tbl'.
Proof.
  intros E. destruct (insert_row_inl _ _ _ _ E) as (k & Hk & Hfree & -> & _).
  now apply place_ok.
Qed.

Lemma update_effect (db : Table) (i : Z) (t d : field string) :
  snd (app (PUT_todo i t d) db) =
  match select_by_id db i, field_value t, field_value d with
  | None, _, _ => db
  | Some _, None, None => db
  | Some row, _, _ =>
      update_row db i (patched row (TodoUpdate.mk (field_value t) (field_value d)))
  end.
Proof.
  destruct (select_by_id db i) as [row|] eqn:E.
  - rewrite (app_update_found _ _ _ _ _ E). simpl.
    destruct (field_value t), (field_value d); reflexivity.
  - now rewrite (app_update_missing _ _ _ _ E).
Qed.

Lemma update_response (db : Table) (i : Z) (t d : field string) :
  fst (app (PUT_todo i t d) db) =
  match select_by_id db i with
  | Some row =>
      mkResponse 200 (jsonable (patched row (TodoUpdate.mk (field_value t) (field_value d))))
  | None => response_of (inr (missing i))
  end.
Proof.
  destruct (select_by_id db i) as [row|] eqn:E.
  - now rewrite (app_update_found _ _ _ _ _ E).
  - now rewrite (app_update_missing _ _ _ _ E).
Qed.

Lemma delete_row_missing (tbl : Table) (k : Z) :
  select_by_id tbl k = None -> delete_row tbl k = tbl.
Proof.
  unfold select_by_id, delete_row. induction tbl as [|x tl IH]; simpl; [reflexivity|].
  destruct (has_id k x); simpl; [discriminate|]. intros H. now rewrite IH.
Qed.

Lemma delete_effect (db : Table) (i : Z) :
  snd (app (DELETE_todo i) db) = delete_row db i.
Proof.
  rewrite app_delete. destruct (select_by_id db i) eqn:E; simpl; [reflexivity|].
  symmetry. now apply delete_row_missing.
Qed.

Lemma app_ok (req : Request) (db : Table) :
  table_ok db -> table_ok (snd (app req db)).
Proof.
  intros Hok. destruct req as [i t d| |i|i t d|i].
  - rewrite app_create.
    destruct (insert_row db _) as [[row db']|e] eqn:E; simpl; [|exact Hok].
    eapply insert_row_ok; eauto.
  - rewrite app_list. exact Hok.
  - rewrite app_get. exact Hok.
  - rewrite update_effect.
    destruct (select_by_id db i), (field_value t), (field_value d);
      try apply update_row_ok; exact Hok.
  - rewrite delete_effect. now apply delete_row_ok.
Qed.

Lemma run_ok (reqs : list Request) (db : Table) :
  table_ok db -> table_ok (run reqs db).
Proof.
  revert db. induction reqs as [|req tl IH]; simpl; intros db Hok; [exact Hok|].
  apply IH. now apply app_ok.
Qed.

Lemma reachable_ok (db : Table) : reachable db -> table_ok db.
Proof.
  intros [reqs ->]. apply run_ok, table_ok_nil.
Qed.

Lemma reachable_nil : reachable [].
Proof. exists []. reflexivity. Qed.

Lemma run_app (l1 l2 : list Request) (db : Table) :
  run (l1 ++ l2) db = run l2 (run l1 db).
Proof.
  revert db. induction l1 as [|r l1 IH]; simpl; intros db; [reflexivity | apply IH].
Qed.

Lemma reachable_step (req : Request) (db : Table) :
  reachable db -> reachable (snd (app req db)).
Proof.
  intros [reqs ->]. exists (reqs ++ [req]). now rewrite run_app.
Qed.

(** In a table that satisfies the invariant, a row is found under its key. *)
Lemma select_by_id_unique (tbl : Table) (r : Todo) (i : Z) :
  table_ok tbl -> In r tbl -> id r = Some i -> select_by_id tbl i = Some r.
Proof.
  induction tbl as [|t tl IH]; simpl; [tauto|].
  intros Hok Hin Hi. apply table_ok_cons in Hok. destruct Hok as (Hk & Hlt & Hok).
  unfold select_by_id. simpl. destruct Hin as [->|Hin].
  - destruct (keyed_key _ Hk) as (j & Ej & Eid).
    assert (j = i) by congruence. subst j. apply has_id_true in Ej. now rewrite Ej.
  - destruct (has_id i t) eqn:Ht.
    + apply has_id_true, key_id in Ht. rewrite Forall_forall in Hlt.
      specialize (Hlt r Hin). unfold id_lt in Hlt. rewrite Ht, Hi in Hlt. lia.
    + now apply IH.
Qed.

Lemma table_ok_NoDup (tbl : Table) : table_ok tbl -> NoDup (map id tbl).
Proof.
  induction tbl as [|t tl IH]; simpl; intros Hok; [constructor|].
  apply table_ok_cons in Hok. destruct Hok as (Hk & Hlt & Hok).
  constructor; [|now apply IH].
  intros Hin. apply in_map_iff in Hin. destruct Hin as (x & Hx & Hxin).
  rewrite Forall_forall in Hlt. specialize (Hlt x Hxin).
  unfold id_lt in Hlt. rewrite Hx in Hlt. destruct (id t); [lia | exact Hlt].
Qed.


(** ** Partial update *)

Lemma patched_id (row : Todo) (u : TodoUpdate.t) : id (patched row u) = id row.
Proof. reflexivity. Qed.

Lemma update_persisted (db : Table) (i : Z) (t d : field string) (row : Todo) :
  select_by_id db i = Some row ->
  select_by_id (snd (app (PUT_todo i t d) db)) i =
  Some (patched row (TodoUpdate.mk (field_value t) (field_value d))).
Proof.
  intros E. pose proof (select_by_id_id _ _ _ E) as Hid.
  rewrite (app_update_found _ _ _ _ _ E). simpl.
  set (p := patched row _).
  assert (Hp : mkTodo (Some i) (title p) (description p) = p).
  { subst p. unfold patched. simpl. now rewrite Hid. }
  destruct (field_value t) eqn:Et, (field_value d) eqn:Ed;
    try (rewrite (update_row_select_same _ _ _ _ E); now rewrite Hp).
  rewrite E. f_equal. subst p. unfold patched. simpl. now destruct row.
Qed.

Lemma update_others (db : Table) (i j : Z) (t d : field string) :
  j <> i ->
  select_by_id (snd (app (PUT_todo i t d) db)) j = select_by_id db j.
Proof.
  intros Hji. rewrite update_effect.
  destruct (select_by_id db i), (field_value t), (field_value d);
    try (now apply update_row_select_other); reflexivity.
Qed.

Lemma update_null_kept : ~ update_overwrites_present.
Proof.
  intros H.
  destruct (H [mkTodo (Some 1) (Some "a") (Some "d")] 1
              (mkTodo (Some 1) (Some "a") (Some "d"))
              Omitted Null eq_refl) as (row' & _ & Hs & _ & Hd).
  vm_compute in Hs. injection Hs as <-. discriminate Hd.
Qed.

(** C1, as amended: for every stored Todo with id [i], the update of [i]
    answers 200 with the full updated entity, which is the row then stored
    under [i]; [title] and [description] take the value of the request field
    where that field holds a value, and keep their prior value where the
    field is omitted or null; no other row changes. *)
Theorem update_todo_partial (db : Table) (i : Z) (row : Todo) (t d : field string) :
  select_by_id db i = Some row ->
  exists row',
    fst (app (PUT_todo i t d) db) = mkResponse 200 (jsonable row') /\
    select_by_id (snd (app (PUT_todo i t d) db)) i = Some row' /\
    id row' = Some i /\
    title row' = match t with Value v => Some v | _ => title row end /\
    description row' = match d with Value v => Some v | _ => description row end /\
    (forall j, j <> i ->
       select_by_id (snd (app (PUT_todo i t d) db)) j = select_by_id db j).
Proof.
  intros E.
  exists (patched row (TodoUpdate.mk (field_value t) (field_value d))).
  split; [now rewrite (app_update_found _ _ _ _ _ E)|].
  split; [now apply update_persisted|].
  split; [rewrite patched_id; now apply select_by_id_id with db|].
  split; [destruct t; reflexivity|].
  split; [destruct d; reflexivity|].
  intros j Hj. now apply update_others.
Qed.

(** ** Not found *)


(** The exceptions a request can end with, and what brings each about. *)
Lemma raised_cases (req : Request) (db : Table) (e : exn) :
  fst (outcome req db) = inr e ->
  (e = not_found /\
   exists i, target req = Some i /\ is_int64 i = true /\ select_by_id db i = None)
  \/
  (e = OverflowError /\
   ((exists i, target req = Some i /\ is_int64 i = false) \/
    (exists k t d, req = POST_createTodo (Value k) t d /\ is_int64 k = false)))
  \/
  (e = IntegrityError /\
   exists i t d, req = POST_createTodo i t d /\
     (field_value t = None \/ exists k, i = Value k /\ select_by_id db k <> None))
  \/
  (e = OperationalError /\
   exists i t d, req = POST_createTodo i t d /\
     field_value i = None /\ select_by_id db int64_max <> None).
Proof.
  assert (Hm : forall i, select_by_id db i = None ->
            inr (missing i) = @inr json exn e ->
            (e = not_found /\
             exists j, Some i = Some j /\ is_int64 j = true /\ select_by_id db j = None)
            \/ (e = OverflowError /\ exists j, Some i = Some j /\ is_int64 j = false)).
  { intros i Hs He. unfold missing in He. destruct (is_int64 i) eqn:Hi;
      injection He as <-; [left | right]; (split; [reflexivity|]); now exists i. }
  intros H. destruct req as [i t d| |i|i t d|i].
  - rewrite outcome_create in H.
    destruct (insert_row db _) as [[row db']|e'] eqn:E; simpl in H; [discriminate|].
    injection H as ->. apply insert_row_inr in E. simpl in E.
    destruct E as [(-> & k & Hk & Hr)|[(-> & Hc)|(-> & Hi & Hfull)]].
    + right. left. split; [reflexivity|]. right.
      destruct i as [| |k']; simpl in Hk; try discriminate. injection Hk as ->.
      now exists k, t, d.
    + right. right. left. split; [reflexivity|]. exists i, t, d. split; [reflexivity|].
      destruct Hc as [Ht | (k & Hk & Hs)]; [now left | right].
      destruct i as [| |k']; simpl in Hk; try discriminate. injection Hk as ->.
      now exists k.
    + right. right. right. split; [reflexivity|]. now exists i, t, d.
  - rewrite outcome_list in H. discriminate.
  - rewrite outcome_get in H. simpl in H.
    destruct (select_by_id db i) eqn:E; [discriminate|].
    destruct (Hm i E H) as [Hc | [He Hc]]; [now left | right; left; tauto].
  - destruct (select_by_id db i) as [row|] eqn:E.
    + rewrite (outcome_update_found _ _ _ _ _ E) in H. discriminate.
    + rewrite (outcome_update_missing _ _ _ _ E) in H. simpl in H.
      destruct (Hm i E H) as [Hc | [He Hc]]; [now left | right; left; tauto].
  - rewrite outcome_delete in H.
    destruct (select_by_id db i) eqn:E; simpl in H; [discriminate|].
    destruct (Hm i E H) as [Hc | [He Hc]]; [now left | right; left; tauto].
Qed.



(** ** Creation *)


Lemma create_without_id (db : Table) (i : field Z) (v : string) (d : field string) :
  field_value i = None -> select_by_id db int64_max = None ->
  app (POST_createTodo i (Value v) d) db =
  (mkResponse 200 (jsonable (mkTodo (Some (last_rowid db + 1)) (Some v) (field_value d))),
   db ++ [mkTodo (Some (last_rowid db + 1)) (Some v) (field_value d)]).
Proof.
  intros Hi Hfree. rewrite app_create. unfold insert_row. simpl. rewrite Hi.
  destruct (new_rowid_next db Hfree) as [-> Habove].
  now rewrite place_last.
Qed.


(** What a creation answered 200 has done. *)
Lemma create_ok_inv (db db' : Table) (i : field Z) (t d : field string) (resp : Response) :
  app (POST_createTodo i t d) db = (resp, db') ->
  status_code resp = 200 ->
  exists k v,
    t = Value v /\
    resp = mkResponse 200 (jsonable (mkTodo (Some k) (Some v) (field_value d))) /\
    db' = place k (mkTodo (Some k) (Some v) (field_value d)) db /\
    is_int64 k = true /\ select_by_id db k = None /\
    (field_value i = None \/ i = Value k).
Proof.
  rewrite app_create. intros H Hs.
  destruct (insert_row db _) as [[row tbl]|e] eqn:E.
  - injection H as <- <-.
    destruct (insert_row_inl _ _ _ _ E) as (k & Hk & Hfree & -> & -> & Ht & Hi).
    simpl in *. destruct t as [| |v]; simpl in Ht; try congruence.
    exists k, v. split; [reflexivity|]. split; [reflexivity|]. split; [reflexivity|].
    apply key_Some in Hk. destruct Hk as [_ Hk]. split; [exact Hk|]. split; [exact Hfree|].
    destruct Hi as [Hi | Hi]; [now left | right].
    destruct i as [| |k']; simpl in Hi; try discriminate. congruence.
  - injection H as <- <-. discriminate Hs.
Qed.


(** ** Round trip *)

(** C6: whenever a creation is answered 200, its response carries an integer
    id, and fetching that id straight afterwards returns the same response,
    status and body, and leaves the database as it is. *)
Theorem create_then_get (db db' : Table) (i : field Z) (t d : field string)
    (resp : Response) :
  app (POST_createTodo i t d) db = (resp, db') ->
  status_code resp = 200 ->
  exists k : Z,
    member "id" (body resp) = Some (JInt k) /\
    app (GET_todo k) db' = (resp, db').
Proof.
  intros H Hs.
  destruct (create_ok_inv _ _ _ _ _ _ H Hs) as (k & v & _ & -> & -> & Hk & Hfree & _).
  exists k. split; [reflexivity|].
  rewrite app_get, place_select_same; [reflexivity | now apply key_mk | exact Hfree].
Qed.

(** ** Deletion *)

Lemma missing_stays_missing (i : Z) (req : Request) (db : Table) :
  select_by_id db i = None -> ~ stores_id i req db ->
  select_by_id (snd (app req db)) i = None.
Proof.
  intros Hn Hs. destruct req as [f t d| |j|j t d|j].
  - unfold stores_id in Hs.
    destruct (app (POST_createTodo f t d) db) as [resp db'] eqn:E. simpl in *.
    destruct (Z.eq_dec (status_code resp) 200) as [H200|Hne].
    + destruct (create_ok_inv _ _ _ _ _ _ E H200) as (k & v & _ & -> & -> & Hk & _).
      simpl in Hs. rewrite place_select_other; [exact Hn | now apply key_mk | congruence].
    + rewrite app_create in E.
      destruct (insert_row db _) as [[row tbl]|e]; injection E as <- <-;
        [now contradiction Hne | exact Hn].
  - now rewrite app_list.
  - now rewrite app_get.
  - destruct (Z.eq_dec i j) as [->|Hij].
    + now rewrite (app_update_missing _ _ _ _ Hn).
    + now rewrite update_others.
  - rewrite delete_effect.
    destruct (Z.eq_dec i j) as [->|Hij].
    + apply delete_row_select_same.
    + now rewrite delete_row_select_other.
Qed.

Lemma never_stores_missing (i : Z) (reqs : list Request) (db : Table) :
  select_by_id db i = None -> never_stores i reqs db ->
  select_by_id (run reqs db) i = None.
Proof.
  revert db. induction reqs as [|req tl IH]; simpl; intros db Hn Hs; [exact Hn|].
  destruct Hs as [Hs Htl]. apply IH; [|exact Htl]. now apply missing_stays_missing.
Qed.

(** C4: for every stored Todo with id [i], the deletion of [i] answers 200
    with the body [{"message": "Todo deleted successfully"}] and leaves no
    row under [i], every other row staying as it was; and after any further
    requests none of which creates a row with id [i], fetching [i] answers
    404. *)
Theorem delete_todo_removes (db : Table) (i : Z) (row : Todo) :
  select_by_id db i = Some row ->
  fst (app (DELETE_todo i) db)
    = mkResponse 200 (JObj [("message", JStr "Todo deleted successfully")]) /\
  select_by_id (snd (app (DELETE_todo i) db)) i = None /\
  (forall j, j <> i ->
     select_by_id (snd (app (DELETE_todo i) db)) j = select_by_id db j) /\
  (forall reqs, never_stores i reqs (snd (app (DELETE_todo i) db)) ->
     fst (app (GET_todo i) (run reqs (snd (app (DELETE_todo i) db))))
       = mkResponse 404 (JObj [("detail", JStr "Todo not found")])).
Proof.
  intros E. pose proof (select_by_id_int64 _ _ _ E) as Hi.
  rewrite app_delete, E. simpl.
  split; [reflexivity|]. split; [apply delete_row_select_same|].
  split; [intros j Hj; now apply delete_row_select_other|].
  intros reqs Hs. rewrite app_get.
  rewrite never_stores_missing; [|apply delete_row_select_same | exact Hs].
  now rewrite response_of_missing, Hi.
Qed.

(** ** Listing *)

Lemma creation_not_listed_last : ~ listed_in_creation_order.
Proof.
  intros H.
  assert (Hr : reachable [mkTodo (Some 2) (Some "A") None]).
  { exists [POST_createTodo (Value 2) (Value "A") Omitted]. reflexivity. }
  specialize (H [mkTodo (Some 2) (Some "A") None]
                [mkTodo (Some 1) (Some "B") None; mkTodo (Some 2) (Some "A") None]
                (Value 1) (Value "B") Omitted (mkTodo (Some 1) (Some "B") None)
                Hr eq_refl).
  discriminate H.
Qed.

(** C5, as amended: in every state of the store, the listing holds exactly
    the rows that can be fetched by id, each id once, in strictly ascending
    id order; and as long as the id 9223372036854775807 is not in use, a
    Todo created by a request that names no id is listed after all the Todos
    listed before. *)
Theorem all_todo_ascending (db : Table) :
  reachable db ->
  fst (app GET_allTodo db) = mkResponse 200 (JArr (map jsonable (list_all db))) /\
  (forall r, In r (list_all db) <-> exists i, select_by_id db i = Some r) /\
  NoDup (map id (list_all db)) /\
  StronglySorted id_lt (list_all db) /\
  (forall (i : field Z) (t : string) (d : field string),
     field_value i = None -> select_by_id db int64_max = None ->
     exists row db',
       app (POST_createTodo i (Value t) d) db = (mkResponse 200 (jsonable row), db') /\
       list_all db' = list_all db ++ [row]).
Proof.
  intros Hr. pose proof (reachable_ok _ Hr) as Hok.
  change (list_all db) with db.
  split; [reflexivity|]. split; [|split; [|split]].
  - intros r. split.
    + intros Hin. pose proof (proj1 Hok) as Hk. rewrite Forall_forall in Hk.
      destruct (keyed_key _ (Hk r Hin)) as (i & _ & Hi).
      exists i. now apply select_by_id_unique.
    + intros [i Hi]. now apply select_by_id_In with i.
  - now apply table_ok_NoDup.
  - apply Hok.
  - intros i t d Hi Hfree. eexists. eexists.
    split; [now apply create_without_id | reflexivity].
Qed.

(** ** The invariant of persisted rows *)

Lemma row_ok_iff (t : Todo) : row_ok t <-> id t <> None /\ title t <> None.
Proof.
  unfold row_ok, non_null. simpl. split.
  - intros [(v & Hv & Hn) (w & Hw & Hm)]. split; intros E.
    + rewrite E in Hv. simpl in Hv. congruence.
    + rewrite E in Hw. simpl in Hw. congruence.
  - intros [Hi Ht]. split.
    + destruct (id t) as [k|]; [|congruence]. exists (JInt k). split; [reflexivity | discriminate].
    + destruct (title t) as [v|]; [|congruence]. exists (JStr v). split; [reflexivity | discriminate].
Qed.

Lemma app_persisted_ok (req : Request) (db : Table) :
  persisted_ok db -> persisted_ok (snd (app req db)).
Proof.
  unfold persisted_ok. intros Hok. rewrite Forall_forall in Hok.
  apply Forall_forall. intros x. destruct req as [i t d| |i|i t d|i].
  - rewrite app_create. destruct (insert_row db _) as [[row db']|e] eqn:E; simpl; [|apply Hok].
    destruct (insert_row_inl _ _ _ _ E) as (k & _ & _ & -> & -> & Ht & _).
    intros Hx. apply place_In in Hx. destruct Hx as [->|Hx]; [|now apply Hok].
    apply row_ok_iff. split; [discriminate | exact Ht].
  - rewrite app_list. apply Hok.
  - rewrite app_get. apply Hok.
  - rewrite update_effect. destruct (select_by_id db i) as [row|] eqn:E; [|apply Hok].
    assert (Hrow : title row <> None).
    { apply (row_ok_iff row), Hok. now apply select_by_id_In with i. }
    assert (Hu : In x (update_row db i
                         (patched row (TodoUpdate.mk (field_value t) (field_value d)))) ->
                 row_ok x).
    { intros Hx. unfold update_row in Hx. apply in_map_iff in Hx.
      destruct Hx as (y & Hy & Hin). destruct (has_id i y).
      - subst x. apply row_ok_iff. simpl. split; [discriminate|].
        destruct (field_value t); [discriminate | exact Hrow].
      - subst x. now apply Hok. }
    destruct (field_value t), (field_value d); try exact Hu. apply Hok.
  - rewrite delete_effect. intros Hx. apply delete_row_In in Hx. now apply Hok.
Qed.

(** C7: the empty store satisfies, and every request of every kind
    preserves, that each persisted row has a non-null id and a non-null
    title, so that every state of the store satisfies it.  A creation whose
    body has no title, or a null one, reaches the table and is refused
    there: it is answered 500 and stores nothing; an update gives a title
    only a value.  The description is not constrained: a creation that omits
    it persists a row whose description is null. *)
Theorem persisted_rows_invariant :
  persisted_ok [] /\
  (forall req db, persisted_ok db -> persisted_ok (snd (app req db))) /\
  (forall db, reachable db -> persisted_ok db) /\
  (forall db i t d, field_value t = None ->
     status_code (fst (app (POST_createTodo i t d) db)) = 500 /\
     snd (app (POST_createTodo i t d) db) = db) /\
  (forall db t, persisted_ok db -> select_by_id db int64_max = None ->
     persisted_ok (snd (app (POST_createTodo Omitted (Value t) Omitted) db)) /\
     exists r, In r (snd (app (POST_createTodo Omitted (Value t) Omitted) db)) /\
               title r = Some t /\ description r = None).
Proof.
  split; [constructor|]. split; [exact app_persisted_ok|]. split; [|split].
  - intros db [reqs ->]. assert (H : persisted_ok []) by constructor.
    revert H. generalize (@nil Todo). induction reqs as [|req tl IH]; simpl; intros db H.
    + exact H.
    + apply IH. now apply app_persisted_ok.
  - intros db i t d Ht. rewrite app_create.
    destruct (insert_row db _) as [[row db']|e] eqn:E; [|split; reflexivity].
    destruct (insert_row_inl _ _ _ _ E) as (k & _ & _ & _ & _ & Hne & _).
    simpl in Hne. congruence.
  - intros db t H Hfree. split; [now apply app_persisted_ok|].
    rewrite create_without_id by (reflexivity || assumption). simpl.
    eexists. split; [apply in_or_app; right; left; reflexivity|]. split; reflexivity.
Qed.

(** ** Who assigns the id *)



(** ** Null in an update body *)


(** ** A failing request changes nothing *)

(** C10: a request that is answered 404 is a get, an update or a delete of
    an id without a row, its response is the not-found response, no
    exception other than that [HTTPException] was raised, and the database
    after it is the database before it. *)
Theorem not_found_leaves_store (req : Request) (db : Table) :
  status_code (fst (app req db)) = 404 ->
  snd (app req db) = db /\
  outcome req db = (inr (HTTPException 404 "Todo not found"), db) /\
  (exists i, target req = Some i /\ select_by_id db i = None) /\
  forall j, select_by_id (snd (app req db)) j = select_by_id db j.
Proof.
  intros H.
  assert (Hc : snd (app req db) = db /\
               outcome req db = (inr (HTTPException 404 "Todo not found"), db) /\
               exists i, target req = Some i /\ select_by_id db i = None).
  { destruct req as [i t d| |i|i t d|i].
    - rewrite app_create in H.
      destruct (insert_row db _) as [[row db']|e]; discriminate H.
    - rewrite app_list in H. discriminate H.
    - rewrite app_get in *. rewrite outcome_get.
      destruct (select_by_id db i) eqn:E; [discriminate H|].
      simpl in H. rewrite (missing_int64 _ (missing_404 _ H)).
      repeat split. now exists i.
    - destruct (select_by_id db i) as [row|] eqn:E.
      + rewrite (app_update_found _ _ _ _ _ E) in H. discriminate H.
      + rewrite (app_update_missing _ _ _ _ E) in *.
        rewrite (outcome_update_missing _ _ _ _ E).
        simpl in H. rewrite (missing_int64 _ (missing_404 _ H)).
        repeat split. now exists i.
    - rewrite app_delete in *. rewrite outcome_delete.
      destruct (select_by_id db i) eqn:E; [discriminate H|].
      simpl in H. rewrite (missing_int64 _ (missing_404 _ H)).
      repeat split. now exists i. }
  destruct Hc as (H1 & H2 & H3). repeat split; try assumption.
  intros j. now rewrite H1.
Qed.

(** * Further properties of the service *)

(** ** Start-up *)

Lemma falsy_false (x : option string) :
  falsy x = false <-> exists url, x = Some url /\ url <> "".
Proof.
  destruct x as [v|]; simpl.
  - destruct (String.eqb_spec v ""); split.
    + discriminate.
    + intros (url & H & Hn). injection H as <-. contradiction.
    + intros _. now exists v.
    + reflexivity.
  - split; [discriminate | intros (url & H & _); discriminate].
Qed.

(** X1: start-up stops with the [RuntimeError] exactly when [DB_URL] is
    unset or set to the empty string, and then before an engine is asked
    for; with any other value [create_engine] is called on that value with
    statement echo on, and the module starts or fails as that call does. *)
Theorem main_module_guard (environ : Environ) :
  (getenv environ "DB_URL" = None \/ getenv environ "DB_URL" = Some "" ->
     main_module environ = RuntimeError "DB_URL is not set in environment variables") /\
  (forall url, getenv environ "DB_URL" = Some url -> url <> "" ->
     main_module environ =
     match create_engine url true with
     | Some engine => Started engine
     | None => EngineError
     end) /\
  (forall msg, main_module environ = RuntimeError msg ->
     msg = "DB_URL is not set in environment variables" /\
     (getenv environ "DB_URL" = None \/ getenv environ "DB_URL" = Some "")) /\
  (forall engine, main_module environ = Started engine ->
     exists url, getenv environ "DB_URL" = Some url /\ url <> "" /\
                 engine = mkEngine url true).
Proof.
  unfold main_module. split; [|split; [|split]].
  - intros [-> | ->]; reflexivity.
  - intros url -> Hn.
    assert (H : falsy (Some url) = false) by (apply falsy_false; now exists url).
    now rewrite H.
  - intros msg. destruct (falsy (getenv environ "DB_URL")) eqn:F.
    + intros H; injection H as <-. split; [reflexivity|].
      destruct (getenv environ "DB_URL") as [v|]; [|now left].
      simpl in F. apply String.eqb_eq in F. subst v. now right.
    + apply falsy_false in F. destruct F as (url & -> & Hn).
      destruct (create_engine url true); discriminate.
  - intros engine. destruct (falsy (getenv environ "DB_URL")) eqn:F; [discriminate|].
    apply falsy_false in F. destruct F as (url & -> & Hn).
    unfold create_engine. destruct (engine_available url); [|discriminate].
    intros H; injection H as <-. now exists url.
Qed.

(** ** Failure is atomic *)

(** X2: whatever exception ends a request, the 404 of a missing id or the
    key violation of a creation, the database after the request is the
    database before it, and the response is not a 200. *)
Theorem failed_request_leaves_store (req : Request) (db : Table) (e : exn) :
  fst (outcome req db) = inr e ->
  snd (outcome req db) = db /\
  snd (app req db) = db /\
  status_code (fst (app req db)) <> 200.
Proof.
  intros H.
  assert (Hdb : snd (outcome req db) = db).
  { destruct req as [i t d| |i|i t d|i].
    - rewrite outcome_create in *.
      destruct (insert_row db _) as [[row db']|e']; [discriminate H | reflexivity].
    - rewrite outcome_list in H. discriminate H.
    - now rewrite outcome_get.
    - destruct (select_by_id db i) as [row|] eqn:E.
      + rewrite (outcome_update_found _ _ _ _ _ E) in H. discriminate H.
      + now rewrite (outcome_update_missing _ _ _ _ E).
    - rewrite outcome_delete in *.
      destruct (select_by_id db i); [discriminate H | reflexivity]. }
  split; [exact Hdb|]. rewrite app_outcome. simpl. split; [exact Hdb|].
  rewrite H.
  destruct (raised_cases req db e H) as [[-> _]|[[-> _]|[[-> _]|[-> _]]]]; simpl; lia.
Qed.

(** ** How the operations compose *)

Lemma patched_twice (row : Todo) (u : TodoUpdate.t) :
  patched (patched row u) u = patched row u.
Proof.
  unfold patched. simpl.
  destruct (TodoUpdate.title u), (TodoUpdate.description u); reflexivity.
Qed.

Lemma patched_nothing (row : Todo) : patched row (TodoUpdate.mk None None) = row.
Proof. now destruct row. Qed.

Lemma update_row_twice (tbl : Table) (k : Z) (p q : Todo) :
  update_row (update_row tbl k p) k q = update_row tbl k q.
Proof.
  unfold update_row. rewrite map_map. apply map_ext. intros r.
  destruct (has_id k r) eqn:E; [|now rewrite E].
  assert (Hk : is_int64 k = true) by (apply has_id_true, key_Some in E; tauto).
  assert (Hn : has_id k (mkTodo (Some k) (title p) (description p)) = true).
  { apply has_id_true. now apply key_mk. }
  now rewrite Hn.
Qed.

Lemma update_row_comm (tbl : Table) (i j : Z) (p q : Todo) :
  i <> j ->
  update_row (update_row tbl i p) j q = update_row (update_row tbl j q) i p.
Proof.
  intros Hij. unfold update_row. rewrite !map_map. apply map_ext. intros r.
  assert (Hi : forall x, has_id j (mkTodo (Some i) (title x) (description x)) = false).
  { intros x. apply has_id_false. intros H. apply key_id in H. simpl in H. congruence. }
  assert (Hj : forall x, has_id i (mkTodo (Some j) (title x) (description x)) = false).
  { intros x. apply has_id_false. intros H. apply key_id in H. simpl in H. congruence. }
  destruct (has_id i r) eqn:Ei, (has_id j r) eqn:Ej;
    rewrite ?Hi, ?Hj, ?Ei, ?Ej; try reflexivity.
  apply has_id_true in Ei, Ej. congruence.
Qed.

Lemma delete_row_place (tbl : Table) (k : Z) (r : Todo) :
  key r = Some k -> select_by_id tbl k = None -> delete_row (place k r tbl) k = tbl.
Proof.
  intros Hr. apply has_id_true in Hr. unfold select_by_id, delete_row.
  induction tbl as [|x tl IH]; simpl; intros Hn.
  - now rewrite Hr.
  - destruct (has_id k x) eqn:Ex; [discriminate|].
    destruct (id_above k x); simpl.
    + rewrite Hr, Ex. simpl. f_equal.
      change (filter (fun r0 => negb (has_id k r0)) tl) with (delete_row tl k).
      now apply delete_row_missing.
    + rewrite Ex. simpl. f_equal. now apply IH.
Qed.

Lemma delete_row_update_row (tbl : Table) (k : Z) (p : Todo) :
  delete_row (update_row tbl k p) k = delete_row tbl k.
Proof.
  unfold delete_row, update_row. induction tbl as [|x tl IH]; simpl; [reflexivity|].
  destruct (has_id k x) eqn:E; simpl.
  - assert (Hk : is_int64 k = true) by (apply has_id_true, key_Some in E; tauto).
    assert (Hn : has_id k (mkTodo (Some k) (title p) (description p)) = true).
    { apply has_id_true. now apply key_mk. }
    rewrite Hn. simpl. exact IH.
  - rewrite E. simpl. now rewrite IH.
Qed.

(** X3: the two reading requests never write: after a listing or a fetch,
    of a stored id or a missing one, the database is the one before, so
    every later request is answered as if the read had not happened; and a
    listing always answers 200, with one entry per row. *)
Theorem reads_leave_store (db : Table) :
  snd (app GET_allTodo db) = db /\
  (forall i, snd (app (GET_todo i) db) = db) /\
  (forall i req, app req (snd (app (GET_todo i) db)) = app req db) /\
  exists l, fst (app GET_allTodo db) = mkResponse 200 (JArr l) /\
            List.length l = List.length db.
Proof.
  split; [now rewrite app_list|]. split; [intros i; now rewrite app_get|].
  split; [intros i req; now rewrite app_get|].
  rewrite app_list. eexists. split; [reflexivity|]. apply length_map.
Qed.

(** X4: an update is idempotent: sent a second time, the same update
    request gets the same response and leaves the database as the first
    one left it, whether the id is stored or not. *)
Theorem update_idempotent (db : Table) (i : Z) (t d : field string) :
  app (PUT_todo i t d) (snd (app (PUT_todo i t d) db)) = app (PUT_todo i t d) db.
Proof.
  destruct (select_by_id db i) as [row|] eqn:E.
  - pose proof (update_persisted db i t d row E) as Hp.
    rewrite (app_update_found _ _ _ _ _ Hp), patched_twice.
    rewrite (app_update_found _ _ _ _ _ E). simpl. f_equal.
    destruct (field_value t), (field_value d); try apply update_row_twice. reflexivity.
  - rewrite (app_update_missing _ _ _ _ E). simpl. now apply app_update_missing.
Qed.

(** X5: an update whose body gives neither field a value (each omitted or
    null, as in the empty body) is answered exactly as the fetch of that
    id, 200 with the stored Todo or 404, and writes nothing. *)
Theorem update_without_values_is_get (db : Table) (i : Z) (t d : field string) :
  field_value t = None -> field_value d = None ->
  app (PUT_todo i t d) db = app (GET_todo i) db.
Proof.
  intros Ht Hd. rewrite app_get. destruct (select_by_id db i) as [row|] eqn:E.
  - rewrite (app_update_found _ _ _ _ _ E), Ht, Hd. now rewrite patched_nothing.
  - now apply app_update_missing.
Qed.

(** X6: deleting the same id a second time never succeeds and changes
    nothing, whatever the first deletion found: it is answered 404 for an
    id that is a signed 64-bit integer, and 500 for an id outside that
    range. *)
Theorem delete_twice (db : Table) (i : Z) :
  app (DELETE_todo i) (snd (app (DELETE_todo i) db))
  = (if is_int64 i then not_found_response else internal_error,
     snd (app (DELETE_todo i) db)).
Proof.
  assert (H : select_by_id (snd (app (DELETE_todo i) db)) i = None).
  { rewrite delete_effect. apply delete_row_select_same. }
  now rewrite app_delete, H, response_of_missing.
Qed.

(** X7: creation and deletion undo each other: when a creation is answered
    200, deleting the id of its response is answered 200 and gives back
    exactly the database from before the creation. *)
Theorem create_then_delete (db db' : Table) (i : field Z) (t d : field string)
    (resp : Response) :
  app (POST_createTodo i t d) db = (resp, db') ->
  status_code resp = 200 ->
  exists k, member "id" (body resp) = Some (JInt k) /\
            app (DELETE_todo k) db' = (deleted_response, db).
Proof.
  intros H Hs.
  destruct (create_ok_inv _ _ _ _ _ _ H Hs) as (k & v & _ & -> & -> & Hk & Hfree & _).
  exists k. split; [reflexivity|].
  rewrite app_delete, place_select_same by (now apply key_mk || assumption).
  rewrite delete_row_place; [reflexivity | now apply key_mk | exact Hfree].
Qed.

(** X8: a fetch straight after an update of the same id returns the very
    response the update returned, the updated Todo or the 404. *)
Theorem update_then_get (db : Table) (i : Z) (t d : field string) :
  app (GET_todo i) (snd (app (PUT_todo i t d) db)) = app (PUT_todo i t d) db.
Proof.
  rewrite app_get. destruct (select_by_id db i) as [row|] eqn:E.
  - rewrite (update_persisted _ _ _ _ _ E).
    now rewrite (app_update_found _ _ _ _ _ E).
  - rewrite (app_update_missing _ _ _ _ E). simpl. now rewrite E.
Qed.

(** X9: updates of two different ids are independent: each gets the
    response it would get without the other, and the database after both
    does not depend on their order. *)
Theorem updates_commute (db : Table) (i j : Z) (ti di tj dj : field string) :
  i <> j ->
  fst (app (PUT_todo j tj dj) (snd (app (PUT_todo i ti di) db)))
    = fst (app (PUT_todo j tj dj) db) /\
  fst (app (PUT_todo i ti di) (snd (app (PUT_todo j tj dj) db)))
    = fst (app (PUT_todo i ti di) db) /\
  snd (app (PUT_todo j tj dj) (snd (app (PUT_todo i ti di) db)))
    = snd (app (PUT_todo i ti di) (snd (app (PUT_todo j tj dj) db))).
Proof.
  intros Hij.
  assert (Hji : j <> i) by congruence.
  split; [|split].
  - rewrite !update_response. now rewrite update_others.
  - rewrite !update_response. now rewrite update_others.
  - rewrite (update_effect (snd (app (PUT_todo i ti di) db))).
    rewrite (update_effect (snd (app (PUT_todo j tj dj) db))).
    rewrite !update_others by assumption. rewrite !update_effect.
    destruct (select_by_id db i) as [ri|], (select_by_id db j) as [rj|];
      destruct (field_value ti), (field_value di), (field_value tj), (field_value dj);
      try reflexivity; now apply update_row_comm.
Qed.

(** X10: an update followed by the deletion of the same id leaves the
    database the deletion alone leaves, with the deletion's response. *)
Theorem update_then_delete (db : Table) (i : Z) (t d : field string) :
  app (DELETE_todo i) (snd (app (PUT_todo i t d) db)) = app (DELETE_todo i) db.
Proof.
  rewrite !app_delete. destruct (select_by_id db i) as [row|] eqn:E.
  - rewrite (update_persisted _ _ _ _ _ E). f_equal.
    rewrite update_effect, E.
    destruct (field_value t), (field_value d); try apply delete_row_update_row. reflexivity.
  - rewrite (app_update_missing _ _ _ _ E). simpl. now rewrite E.
Qed.

(** ** How the listing changes *)

Lemma place_split (tbl : Table) (k : Z) (r : Todo) :
  exists l1 l2, tbl = l1 ++ l2 /\ place k r tbl = l1 ++ r :: l2.
Proof.
  induction tbl as [|x tl IH]; simpl.
  - now exists [], [].
  - destruct (id_above k x).
    + now exists [], (x :: tl).
    + destruct IH as (l1 & l2 & -> & ->). now exists (x :: l1), l2.
Qed.

Lemma delete_row_split (tbl : Table) (i : Z) (row : Todo) :
  table_ok tbl -> select_by_id tbl i = Some row ->
  exists l1 l2, tbl = l1 ++ row :: l2 /\ delete_row tbl i = l1 ++ l2.
Proof.
  induction tbl as [|x tl IH]; intros Hok Hs; [discriminate|].
  apply table_ok_cons in Hok. destruct Hok as (Hk & Hlt & Hok).
  unfold select_by_id in Hs. simpl in *. destruct (has_id i x) eqn:E; simpl.
  - injection Hs as <-. exists [], tl. split; [reflexivity|]. simpl.
    apply delete_row_missing.
    destruct (select_by_id tl i) as [y|] eqn:Ey; [|reflexivity].
    rewrite Forall_forall in Hlt. specialize (Hlt y (select_by_id_In _ _ _ Ey)).
    apply has_id_true, key_id in E. unfold id_lt in Hlt.
    rewrite E, (select_by_id_id _ _ _ Ey) in Hlt. lia.
  - destruct (IH Hok Hs) as (l1 & l2 & -> & Hd). exists (x :: l1), l2.
    split; [reflexivity|]. simpl. f_equal. exact Hd.
Qed.

Lemma jsonable_inj (a b : Todo) : jsonable a = jsonable b -> a = b.
Proof.
  destruct a as [ia ta da], b as [ib tb db]. unfold jsonable. simpl. intros H.
  injection H as Hi Ht Hd. f_equal.
  - destruct ia, ib; simpl in Hi; congruence.
  - destruct ta, tb; simpl in Ht; congruence.
  - destruct da, db; simpl in Hd; congruence.
Qed.

(** X11: a creation answered 200 puts exactly one Todo, the one of its
    response, into the listing and leaves the others in their order; in
    every state of the store the deletion of a stored id takes exactly that
    Todo out of the listing and leaves the others in their order; and an
    update, whatever it finds, leaves the ids of the listing and their order
    as they were. *)
Theorem listing_changes (db : Table) :
  (forall i t d row db',
     app (POST_createTodo i t d) db = (mkResponse 200 (jsonable row), db') ->
     exists l1 l2, list_all db = l1 ++ l2 /\ list_all db' = l1 ++ row :: l2) /\
  (forall i row, reachable db -> select_by_id db i = Some row ->
     exists l1 l2, list_all db = l1 ++ row :: l2 /\
                   list_all (snd (app (DELETE_todo i) db)) = l1 ++ l2) /\
  (forall i t d,
     map id (list_all (snd (app (PUT_todo i t d) db))) = map id (list_all db)).
Proof.
  split; [|split].
  - intros i t d row db' E.
    destruct (create_ok_inv _ _ _ _ _ _ E eq_refl) as (k & v & _ & Hr & -> & _).
    assert (Hrow : jsonable row = jsonable (mkTodo (Some k) (Some v) (field_value d)))
      by congruence.
    apply jsonable_inj in Hrow. subst row. apply place_split.
  - intros i row Hr Hs. rewrite app_delete, Hs. simpl.
    apply delete_row_split; [now apply reachable_ok | exact Hs].
  - intros i t d. rewrite update_effect.
    destruct (select_by_id db i), (field_value t), (field_value d);
      try apply update_row_ids; reflexivity.
Qed.

(** ** Creations in sequence *)







(** ** One session for a whole test *)

Lemma nth_error_middle {A : Type} (l1 l2 : list A) (a : A) :
  nth_error (l1 ++ a :: l2) (List.length l1) = Some a.
Proof. induction l1 as [|x l1 IH]; simpl; [reflexivity | exact IH]. Qed.

Lemma set_nth_middle {A : Type} (l1 l2 : list A) (a b : A) :
  set_nth (List.length l1) b (l1 ++ a :: l2) = l1 ++ b :: l2.
Proof. induction l1 as [|x l1 IH]; simpl; [reflexivity | now rewrite IH]. Qed.

Lemma modify_middle (tbl : Table) (os1 os2 : list Instance) (o : Instance)
    (f : Instance -> Instance) :
  modify (List.length os1) f (mkSession tbl (os1 ++ o :: os2))
  = (inl tt, mkSession tbl (os1 ++ f o :: os2)).
Proof.
  unfold modify. simpl. now rewrite nth_error_middle, set_nth_middle.
Qed.

Lemma deref_middle (tbl : Table) (os1 os2 : list Instance) (o : Instance) :
  deref (List.length os1) (mkSession tbl (os1 ++ o :: os2))
  = (inl (obj o), mkSession tbl (os1 ++ o :: os2)).
Proof.
  unfold deref. simpl. now rewrite nth_error_middle.
Qed.

Lemma flush_one_clean (o : Instance) (tbl : Table) :
  clean o -> flush_one o tbl = inl (o, tbl).
Proof.
  unfold flush_one. intros [H | [H Hm]]; rewrite H; [reflexivity | now rewrite Hm].
Qed.

Lemma flush_clean (os : list Instance) (tbl : Table) :
  Forall clean os -> flush os tbl = inl (os, tbl).
Proof.
  induction 1 as [|o os Ho _ IH]; simpl; [reflexivity|].
  now rewrite (flush_one_clean _ _ Ho), IH.
Qed.

Lemma flush_middle (os1 os2 : list Instance) (x : Instance) (tbl : Table) :
  Forall clean os1 -> Forall clean os2 ->
  flush (os1 ++ x :: os2) tbl =
  match flush_one x tbl with
  | inl (x', tbl') => inl (os1 ++ x' :: os2, tbl')
  | inr e => inr e
  end.
Proof.
  intros H1 H2. induction H1 as [|o os Ho _ IH]; simpl.
  - destruct (flush_one x tbl) as [[x' tbl']|e]; [|reflexivity].
    now rewrite (flush_clean _ _ H2).
  - rewrite (flush_one_clean _ _ Ho), IH.
    destruct (flush_one x tbl) as [[x' tbl']|e]; reflexivity.
Qed.

Lemma commit_middle (os1 os2 : list Instance) (x : Instance) (tbl : Table) :
  Forall clean os1 -> Forall clean os2 ->
  session_commit (mkSession tbl (os1 ++ x :: os2)) =
  match flush_one x tbl with
  | inl (x', tbl') => (inl tt, mkSession tbl' (os1 ++ x' :: os2))
  | inr e => (inr e, mkSession tbl (os1 ++ x :: os2))
  end.
Proof.
  intros H1 H2. unfold session_commit. simpl. rewrite (flush_middle _ _ _ _ H1 H2).
  destruct (flush_one x tbl) as [[x' tbl']|e]; reflexivity.
Qed.

Lemma refresh_middle (os1 os2 : list Instance) (x : Instance) (tbl : Table)
    (k : Z) (row : Todo) :
  state x = Persistent -> id (obj x) = Some k -> select_by_id tbl k = Some row ->
  session_refresh (List.length os1) (mkSession tbl (os1 ++ x :: os2))
  = (inl tt, mkSession tbl (os1 ++ mkInstance Persistent false row :: os2)).
Proof.
  intros Hs Hk Hr. unfold session_refresh. simpl.
  now rewrite nth_error_middle, Hs, Hk, Hr, set_nth_middle.
Qed.

Lemma loaded_keys_app (a b : list Instance) :
  loaded_keys (a ++ b) = loaded_keys a ++ loaded_keys b.
Proof. unfold loaded_keys. now rewrite filter_app, map_app. Qed.

Lemma loaded_keys_In (os : list Instance) (key : option Z) :
  In key (loaded_keys os) <->
  exists o, In o os /\ state o = Persistent /\ id (obj o) = key.
Proof.
  unfold loaded_keys. rewrite in_map_iff. split.
  - intros (o & Hk & Hin). apply filter_In in Hin. destruct Hin as [Hin Hp].
    exists o. repeat split; try assumption.
    unfold is_persistent in Hp. destruct (state o); try discriminate. reflexivity.
  - intros (o & Hin & Hs & Hk). exists o. split; [exact Hk|].
    apply filter_In. split; [exact Hin|]. unfold is_persistent. now rewrite Hs.
Qed.

Lemma loaded_key_stored (tbl : Table) (os : list Instance) (k : Z) :
  Forall (in_sync tbl) os -> In (Some k) (loaded_keys os) ->
  select_by_id tbl k <> None.
Proof.
  intros Hsync Hin. apply loaded_keys_In in Hin. destruct Hin as (o & Hin & Hs & Hk).
  rewrite Forall_forall in Hsync. destruct (Hsync o Hin Hs) as (k' & Hk' & Hsel).
  assert (k' = k) by congruence. subst k'. congruence.
Qed.

(** A write under key [i] leaves in sync the objects that stand for other
    keys. *)
Lemma in_sync_other (tbl tbl' : Table) (os : list Instance) (i : Z) :
  (forall k, k <> i -> select_by_id tbl' k = select_by_id tbl k) ->
  Forall (in_sync tbl) os -> ~ In (Some i) (loaded_keys os) ->
  Forall (in_sync tbl') os.
Proof.
  intros Hother Hsync Hn. rewrite Forall_forall in *. intros o Hin Hs.
  destruct (Hsync o Hin Hs) as (k & Hk & Hsel). exists k. split; [exact Hk|].
  rewrite Hother; [exact Hsel|]. intros ->. apply Hn.
  apply loaded_keys_In. now exists o.
Qed.

Lemma index_of_some {A : Type} (p : A -> bool) (l : list A) (n r : nat) :
  index_of p l n = Some r ->
  exists l1 a l2, l = l1 ++ a :: l2 /\ r = (n + List.length l1)%nat /\ p a = true.
Proof.
  revert n. induction l as [|x tl IH]; simpl; intros n H; [discriminate|].
  destruct (p x) eqn:E.
  - injection H as <-. exists [], x, tl. simpl. repeat split; [lia | exact E].
  - destruct (IH _ H) as (l1 & a & l2 & -> & -> & Ha).
    exists (x :: l1), a, l2. simpl. repeat split; [lia | exact Ha].
Qed.

Lemma index_of_none {A : Type} (p : A -> bool) (l : list A) (n : nat) :
  index_of p l n = None -> Forall (fun a => p a = false) l.
Proof.
  revert n. induction l as [|x tl IH]; simpl; intros n H; [constructor|].
  destruct (p x) eqn:E; [discriminate|]. constructor; [exact E | eauto].
Qed.

Lemma loaded_keys_middle (os1 os2 : list Instance) (o : Instance) :
  loaded_keys (os1 ++ o :: os2) =
  loaded_keys os1 ++ (if is_persistent o then [id (obj o)] else []) ++ loaded_keys os2.
Proof.
  rewrite loaded_keys_app. f_equal. unfold loaded_keys. simpl.
  destruct (is_persistent o); reflexivity.
Qed.

Lemma coherent_focus (tbl : Table) (os1 os2 : list Instance) (o : Instance) (i : Z) :
  coherent (mkSession tbl (os1 ++ o :: os2)) ->
  state o = Persistent -> id (obj o) = Some i ->
  Forall clean os1 /\ Forall clean os2 /\
  Forall (in_sync tbl) os1 /\ Forall (in_sync tbl) os2 /\
  ~ In (Some i) (loaded_keys os1) /\ ~ In (Some i) (loaded_keys os2) /\
  NoDup (loaded_keys os1 ++ loaded_keys os2).
Proof.
  intros (Hc & Hs & Hn) Ho Hi. simpl in *.
  apply Forall_app in Hc. destruct Hc as [Hc1 Hc2]. apply Forall_cons_iff in Hc2.
  apply Forall_app in Hs. destruct Hs as [Hs1 Hs2]. apply Forall_cons_iff in Hs2.
  rewrite loaded_keys_middle in Hn. unfold is_persistent in Hn. rewrite Ho, Hi in Hn.
  simpl in Hn. pose proof (NoDup_remove_2 _ _ _ Hn) as Hnot.
  apply NoDup_remove_1 in Hn.
  repeat split; try tauto; intros Hin; apply Hnot, in_or_app; tauto.
Qed.

Lemma coherent_middle (tbl : Table) (os1 os2 : list Instance) (x : Instance) :
  Forall clean os1 -> Forall clean os2 -> clean x ->
  Forall (in_sync tbl) os1 -> Forall (in_sync tbl) os2 -> in_sync tbl x ->
  NoDup (loaded_keys (os1 ++ x :: os2)) ->
  coherent (mkSession tbl (os1 ++ x :: os2)).
Proof.
  intros. unfold coherent. simpl. repeat split; try assumption;
    apply Forall_app; split; try assumption; now constructor.
Qed.

Lemma NoDup_snoc {A : Type} (l : list A) (a : A) :
  NoDup l -> ~ In a l -> NoDup (l ++ [a]).
Proof.
  induction l as [|x l IH]; simpl; intros Hnd Hn.
  - constructor; [tauto | constructor].
  - inversion Hnd; subst. constructor.
    + intros Hin. apply in_app_or in Hin. simpl in Hin. intuition congruence.
    + apply IH; tauto.
Qed.

(** [session.get] in a coherent session: the row of the table, as an object
    of the session. *)
Lemma session_get_coherent (s : Session) (i : Z) :
  coherent s ->
  match select_by_id (table s) i with
  | None =>
      session_get i s = (if is_int64 i then inl None else inr OverflowError, s)
  | Some row =>
      exists os1 os2,
        session_get i s =
          (inl (Some (List.length os1)),
           mkSession (table s) (os1 ++ mkInstance Persistent false row :: os2)) /\
        coherent (mkSession (table s) (os1 ++ mkInstance Persistent false row :: os2))
  end.
Proof.
  intros Hc. destruct s as [tbl os]. simpl. unfold session_get. simpl.
  destruct (index_of (is_loaded i) os 0) as [r|] eqn:Ei.
  - apply index_of_some in Ei. destruct Ei as (os1 & o & os2 & -> & -> & Ho).
    unfold is_loaded in Ho. destruct o as [st md ob]. simpl in Ho.
    destruct st; try discriminate. apply has_id_true, key_id in Ho.
    destruct Hc as (Hcl' & Hsy & Hnd). simpl in *. pose proof Hcl' as Hcl.
    apply Forall_app in Hcl. destruct Hcl as [_ Hcl]. apply Forall_cons_iff in Hcl.
    destruct Hcl as [[Hcl | [_ Hcl]] _]; simpl in Hcl; [discriminate|]. subst md.
    pose proof Hsy as Hsy'.
    apply Forall_app in Hsy. destruct Hsy as [_ Hsy]. apply Forall_cons_iff in Hsy.
    destruct Hsy as [Hsy _]. destruct (Hsy eq_refl) as (k & Hk & Hsel). simpl in *.
    assert (k = i) by congruence. subst k. rewrite Hsel.
    exists os1, os2. split; [reflexivity|]. repeat split; assumption.
  - destruct (select_by_id tbl i) as [row|] eqn:E.
    2:{ destruct (is_int64 i); reflexivity. }
    rewrite (select_by_id_int64 _ _ _ E).
    exists os, []. split; [reflexivity|].
    destruct Hc as (Hcl & Hsy & Hnd). simpl in *.
    apply coherent_middle; try assumption; try apply Forall_nil.
    + right. split; reflexivity.
    + intros _. exists i. split; [now apply select_by_id_id with tbl | exact E].
    + rewrite loaded_keys_middle. simpl. rewrite (select_by_id_id _ _ _ E).
      change (loaded_keys []) with (@nil (option Z)).
      apply NoDup_snoc; [exact Hnd|].
      intros Hin. apply loaded_keys_In in Hin. destruct Hin as (o & Hin & Hs & Hk).
      apply index_of_none in Ei. rewrite Forall_forall in Ei. specialize (Ei o Hin).
      unfold is_loaded in Ei. rewrite Hs in Ei. apply has_id_false in Ei.
      rewrite Forall_forall in Hsy. destruct (Hsy o Hin Hs) as (k & Hk' & Hsel).
      apply select_by_id_key in Hsel. congruence.
Qed.

(** In a coherent session an endpoint returns what it returns in a session
    of its own, commits the same table, and leaves the session coherent
    unless the request is answered 500. *)
Lemma endpoint_coherent (req : Request) (s : Session) :
  coherent s ->
  exists s',
    endpoint req s = (fst (outcome req (table s)), s') /\
    table s' = snd (outcome req (table s)) /\
    (status_code (response_of (fst (outcome req (table s)))) <> 500 -> coherent s').
Proof.
  intros Hc. destruct req as [f t d| |i|i t d|i].
  - (* POST /createTodo *)
    rewrite outcome_create. destruct s as [tbl os]. simpl.
    destruct Hc as (Hcl & Hsy & Hnd). simpl in *.
    unfold endpoint, returning_todo, create_todo, bind, new_object, session_add. simpl.
    rewrite modify_middle. simpl.
    rewrite commit_middle by (assumption || constructor).
    unfold flush_one. simpl.
    destruct (insert_row tbl _) as [[row tbl']|e] eqn:E; simpl.
    + destruct (insert_row_inl _ _ _ _ E) as (k & Hk & Hfree & -> & Hrow & _).
      pose proof (key_id _ _ Hk) as Hid.
      rewrite (refresh_middle _ _ _ _ k row) by
        (reflexivity || assumption || now apply place_select_same).
      unfold ret. cbv beta iota. rewrite deref_middle. simpl.
      eexists. split; [reflexivity|].
      split; [reflexivity|]. intros _.
      assert (Hn : ~ In (Some k) (loaded_keys os)).
      { intros Hin. now apply (loaded_key_stored tbl os k Hsy Hin). }
      apply coherent_middle; try assumption; try apply Forall_nil.
      * right. split; reflexivity.
      * apply in_sync_other with tbl k; try assumption.
        intros j Hj. now apply place_select_other.
      * intros _. exists k. split; [exact Hid | now apply place_select_same].
      * rewrite loaded_keys_middle. simpl. rewrite Hid.
        now apply NoDup_snoc.
    + eexists. split; [reflexivity|]. split; [reflexivity|].
      intros Hne. exfalso. apply Hne. apply insert_row_inr in E.
      destruct E as [[-> _]|[[-> _]|[-> _]]]; reflexivity.
  - (* GET /allTodo *)
    exists s. rewrite outcome_list. simpl. split; [reflexivity|].
    split; [reflexivity | intros _; exact Hc].
  - (* GET /todo/{todo_id} *)
    rewrite outcome_get. simpl. pose proof (session_get_coherent s i Hc) as Hg.
    unfold endpoint, returning_todo, todo_by_id, bind.
    destruct (select_by_id (table s) i) as [row|] eqn:E.
    + destruct Hg as (os1 & os2 & -> & Hc'). unfold ret. rewrite deref_middle. simpl.
      eexists. split; [reflexivity|]. split; [reflexivity | intros _; exact Hc'].
    + rewrite Hg. exists s. unfold missing. destruct (is_int64 i);
        (split; [reflexivity|]; split; [reflexivity | intros _; exact Hc]).
  - (* PUT /todo/{todo_id} *)
    pose proof (session_get_coherent s i Hc) as Hg.
    unfold endpoint, returning_todo, update_todo, bind.
    destruct (select_by_id (table s) i) as [row|] eqn:E.
    + rewrite (outcome_update_found _ _ _ _ _ E). simpl.
      destruct Hg as (os1 & os2 & -> & Hc').
      pose proof (select_by_id_id _ _ _ E) as Hid.
      destruct (coherent_focus _ _ _ _ i Hc' eq_refl Hid)
        as (Hc1 & Hc2 & Hs1 & Hs2 & Hn1 & Hn2 & Hnd).
      destruct row as [ri rt rd]. simpl in Hid. subst ri.
      set (tbl := table s) in *. clearbody tbl.
      assert (Hfin : forall (tbl' : Table) (p : Todo),
                 id p = Some i -> select_by_id tbl' i = Some p ->
                 (forall k, k <> i -> select_by_id tbl' k = select_by_id tbl k) ->
                 coherent (mkSession tbl' (os1 ++ mkInstance Persistent false p :: os2))).
      { intros tbl' p Hp Hsel Hother. apply coherent_middle; try assumption.
        - right. split; reflexivity.
        - now apply in_sync_other with tbl i.
        - now apply in_sync_other with tbl i.
        - intros _. now exists i.
        - rewrite loaded_keys_middle. simpl. rewrite Hp.
          destruct Hc' as (_ & _ & Hnd'). simpl in Hnd'.
          now rewrite loaded_keys_middle in Hnd'. }
      destruct (field_value t) as [vt|], (field_value d) as [vd|]; simpl;
        unfold setattr_title, setattr_description, session_add, ret;
        rewrite ?modify_middle; simpl;
        rewrite commit_middle by assumption; unfold flush_one; simpl;
        (erewrite refresh_middle;
         [| reflexivity | reflexivity
          | first [ eapply update_row_select_same; exact E | exact E ] ]);
        rewrite deref_middle; simpl;
        (eexists; split; [reflexivity|]; split; [reflexivity|]; intros _;
         apply Hfin;
         [ reflexivity
         | first [ eapply update_row_select_same; exact E | exact E ]
         | intros k Hk; first [ now apply update_row_select_other | reflexivity ] ]).
    + rewrite (outcome_update_missing _ _ _ _ E). simpl. rewrite Hg.
      exists s. unfold missing. destruct (is_int64 i);
        (split; [reflexivity|]; split; [reflexivity | intros _; exact Hc]).
  - (* DELETE /todo/{todo_id} *)
    rewrite outcome_delete. pose proof (session_get_coherent s i Hc) as Hg.
    unfold endpoint, delete_todo, bind.
    destruct (select_by_id (table s) i) as [row|] eqn:E.
    + destruct Hg as (os1 & os2 & -> & Hc').
      pose proof (select_by_id_id _ _ _ E) as Hid.
      destruct (coherent_focus _ _ _ _ i Hc' eq_refl Hid)
        as (Hc1 & Hc2 & Hs1 & Hs2 & Hn1 & Hn2 & Hnd).
      set (tbl := table s) in *. clearbody tbl.
      unfold session_delete. simpl. rewrite nth_error_middle. simpl.
      rewrite set_nth_middle.
      rewrite commit_middle by assumption. unfold flush_one. simpl. rewrite Hid. simpl.
      eexists. split; [reflexivity|]. split; [reflexivity|]. intros _.
      apply coherent_middle; try assumption.
      * left. reflexivity.
      * apply in_sync_other with tbl i; try assumption.
        intros k Hk. now apply delete_row_select_other.
      * apply in_sync_other with tbl i; try assumption.
        intros k Hk. now apply delete_row_select_other.
      * intros Hs. discriminate Hs.
      * rewrite loaded_keys_middle. exact Hnd.
    + rewrite Hg. simpl. exists s. unfold missing. destruct (is_int64 i);
        (split; [reflexivity|]; split; [reflexivity | intros _; exact Hc]).
Qed.

Lemma client_run_coherent (reqs : list Request) (s : Session) :
  coherent s ->
  Forall (fun r => status_code r <> 500) (responses reqs (table s)) ->
  fst (client_run reqs s) = responses reqs (table s) /\
  table (snd (client_run reqs s)) = run reqs (table s) /\
  coherent (snd (client_run reqs s)).
Proof.
  revert s. induction reqs as [|req tl IH]; simpl; intros s Hc Hok.
  - split; [reflexivity|]. split; [reflexivity | exact Hc].
  - apply Forall_cons_iff in Hok. destruct Hok as [Hreq Hok].
    rewrite app_outcome in *. simpl in *.
    destruct (endpoint_coherent req s Hc) as (s' & He & Ht & Hc').
    unfold client. rewrite He. rewrite <- Ht in *.
    destruct (IH s' (Hc' Hreq) Hok) as (H1 & H2 & H3).
    destruct (client_run tl s') as [rs s'']. simpl in *. subst rs.
    split; [reflexivity|]. split; assumption.
Qed.

(** X13: the tests run all the requests of a test in the one session of
    [session_fixture], the application proper runs each request in a session
    of its own; as long as no request is answered 500, the two give the same
    responses, request by request, and leave the same table. *)
Theorem client_fixture_faithful (reqs : list Request) :
  Forall (fun r => status_code r <> 500) (responses reqs []) ->
  fst (client_run reqs session_fixture) = responses reqs [] /\
  table (snd (client_run reqs session_fixture)) = run reqs [].
Proof.
  intros Hok.
  assert (Hc : coherent session_fixture) by (repeat split; constructor).
  destruct (client_run_coherent reqs session_fixture Hc Hok) as (H1 & H2 & _).
  split; assumption.
Qed.

End Service.

(** * The properties at concrete inputs *)

#[local] Existing Instance sample_platform.

(** C1, counterexample: on the table holding the one row
    [(1, "a", "d")], the update body [{"description": null}] names
    [description] explicitly, yet the stored description stays ["d"]. *)
Lemma update_null_not_overwritten : ~ update_overwrites_present.
Proof. exact update_null_kept. Qed.

Lemma update_todo_partial_witness :
  let db := [mkTodo (Some 1) (Some "Original Title") (Some "Original Desc")] in
  select_by_id db 1 = Some (mkTodo (Some 1) (Some "Original Title") (Some "Original Desc")) /\
  exists row',
    fst (app (PUT_todo 1 (Value "Only Title Updated") Omitted) db)
      = mkResponse 200 (jsonable row') /\
    title row' = Some "Only Title Updated" /\
    description row' = Some "Original Desc".
Proof.
  split; [reflexivity|].
  destruct (update_todo_partial
              [mkTodo (Some 1) (Some "Original Title") (Some "Original Desc")] 1
              (mkTodo (Some 1) (Some "Original Title") (Some "Original Desc"))
              (Value "Only Title Updated") Omitted eq_refl)
    as (row' & H1 & _ & _ & H3 & H4 & _).
  exists row'. repeat split; assumption.
Defined.





Lemma create_then_get_witness :
  let resp := mkResponse 200 (jsonable (mkTodo (Some 1) (Some "Find Me") (Some "Find this todo"))) in
  let db' := [mkTodo (Some 1) (Some "Find Me") (Some "Find this todo")] in
  app (POST_createTodo Omitted (Value "Find Me") (Value "Find this todo")) [] = (resp, db') /\
  status_code resp = 200 /\
  exists k : Z, member "id" (body resp) = Some (JInt k) /\ app (GET_todo k) db' = (resp, db').
Proof.
  split; [reflexivity|]. split; [reflexivity|].
  exact (create_then_get [] [mkTodo (Some 1) (Some "Find Me") (Some "Find this todo")]
           Omitted (Value "Find Me") (Value "Find this todo")
           (mkResponse 200 (jsonable (mkTodo (Some 1) (Some "Find Me") (Some "Find this todo"))))
           eq_refl eq_refl).
Defined.

Lemma delete_todo_removes_witness :
  let db := [mkTodo (Some 1) (Some "Delete Me") (Some "To be deleted")] in
  select_by_id db 1 = Some (mkTodo (Some 1) (Some "Delete Me") (Some "To be deleted")) /\
  fst (app (DELETE_todo 1) db)
    = mkResponse 200 (JObj [("message", JStr "Todo deleted successfully")]) /\
  fst (app (GET_todo 1)
         (run [GET_allTodo; PUT_todo 1 (Value "x") Null]
              (snd (app (DELETE_todo 1) db))))
    = mkResponse 404 (JObj [("detail", JStr "Todo not found")]).
Proof.
  split; [reflexivity|].
  destruct (delete_todo_removes
              [mkTodo (Some 1) (Some "Delete Me") (Some "To be deleted")] 1
              (mkTodo (Some 1) (Some "Delete Me") (Some "To be deleted")) eq_refl)
    as (H1 & _ & _ & H4).
  split; [exact H1|].
  apply (H4 [GET_allTodo; PUT_todo 1 (Value "x") Null]).
  simpl. tauto.
Defined.

(** C5, counterexample: after the creation requests
    [{"id": 2, "title": "A"}] and then [{"id": 1, "title": "B"}], the listing
    is B, A. *)
Lemma listing_not_in_creation_order : ~ listed_in_creation_order.
Proof. exact creation_not_listed_last. Qed.

Lemma all_todo_ascending_witness :
  let db := [mkTodo (Some 1) (Some "Todo 1") (Some "Desc 1");
             mkTodo (Some 2) (Some "Todo 2") (Some "Desc 2")] in
  reachable db /\
  fst (app GET_allTodo db) = mkResponse 200 (JArr (map jsonable (list_all db))) /\
  StronglySorted id_lt (list_all db).
Proof.
  assert (Hr : reachable [mkTodo (Some 1) (Some "Todo 1") (Some "Desc 1");
                          mkTodo (Some 2) (Some "Todo 2") (Some "Desc 2")]).
  { exists [POST_createTodo Omitted (Value "Todo 1") (Value "Desc 1");
            POST_createTodo Omitted (Value "Todo 2") (Value "Desc 2")]. reflexivity. }
  split; [exact Hr|].
  destruct (all_todo_ascending _ Hr) as (H1 & _ & _ & H4 & _).
  split; assumption.
Defined.

Lemma persisted_rows_invariant_witness :
  let db := [mkTodo (Some 1) (Some "T") None] in
  persisted_ok db /\
  persisted_ok (snd (app (PUT_todo 1 Null (Value "D")) db)) /\
  persisted_ok (snd (app (DELETE_todo 1) db)) /\
  snd (app (POST_createTodo Omitted Null (Value "D")) db) = db.
Proof.
  assert (H : persisted_ok [mkTodo (Some 1) (Some "T") None]).
  { constructor; [|constructor]. apply row_ok_iff. split; discriminate. }
  split; [exact H|].
  destruct persisted_rows_invariant as (_ & Hstep & _ & Hnull & _).
  split; [apply Hstep; exact H|]. split; [apply Hstep; exact H|].
  apply Hnull. reflexivity.
Defined.




Lemma not_found_leaves_store_witness :
  let db := [mkTodo (Some 1) (Some "a") None] in
  status_code (fst (app (PUT_todo 999 (Value "New Title") Omitted) db)) = 404 /\
  snd (app (PUT_todo 999 (Value "New Title") Omitted) db) = db /\
  snd (app (DELETE_todo 2) db) = db.
Proof.
  split; [reflexivity|]. split.
  - exact (proj1 (not_found_leaves_store (PUT_todo 999 (Value "New Title") Omitted)
                    [mkTodo (Some 1) (Some "a") None] eq_refl)).
  - exact (proj1 (not_found_leaves_store (DELETE_todo 2)
                    [mkTodo (Some 1) (Some "a") None] eq_refl)).
Defined.

Lemma main_module_guard_witness :
  main_module [("PATH", "/usr/bin"); ("DB_URL", "sqlite://")]
    = Started (mkEngine "sqlite://" true) /\
  main_module [("DB_URL", "notaurl")] = EngineError /\
  main_module [("DB_URL", "")]
    = RuntimeError "DB_URL is not set in environment variables".
Proof.
  split; [|split].
  - assert (Hn : "sqlite://" <> "") by discriminate.
    exact (proj1 (proj2 (main_module_guard [("PATH", "/usr/bin"); ("DB_URL", "sqlite://")]))
             "sqlite://" eq_refl Hn).
  - assert (Hn : "notaurl" <> "") by discriminate.
    exact (proj1 (proj2 (main_module_guard [("DB_URL", "notaurl")]))
             "notaurl" eq_refl Hn).
  - apply (proj1 (main_module_guard [("DB_URL", "")])). right. reflexivity.
Defined.

Lemma failed_request_leaves_store_witness :
  let db := [mkTodo (Some 1) (Some "a") None] in
  fst (outcome (POST_createTodo (Value 1) (Value "b") Omitted) db) = inr IntegrityError /\
  snd (app (POST_createTodo (Value 1) (Value "b") Omitted) db) = db.
Proof.
  split; [reflexivity|].
  exact (proj1 (proj2 (failed_request_leaves_store
                         (POST_createTodo (Value 1) (Value "b") Omitted)
                         [mkTodo (Some 1) (Some "a") None] IntegrityError eq_refl))).
Defined.

Lemma update_without_values_is_get_witness :
  let db := [mkTodo (Some 1) (Some "a") (Some "d")] in
  app (PUT_todo 1 Omitted Null) db = app (GET_todo 1) db /\
  app (PUT_todo 7 Omitted Omitted) db = app (GET_todo 7) db.
Proof.
  split.
  - exact (update_without_values_is_get [mkTodo (Some 1) (Some "a") (Some "d")] 1
             Omitted Null eq_refl eq_refl).
  - exact (update_without_values_is_get [mkTodo (Some 1) (Some "a") (Some "d")] 7
             Omitted Omitted eq_refl eq_refl).
Defined.

Lemma create_then_delete_witness :
  let db := [mkTodo (Some 1) (Some "a") None; mkTodo (Some 5) (Some "b") None] in
  let db' := [mkTodo (Some 1) (Some "a") None; mkTodo (Some 3) (Some "c") None;
              mkTodo (Some 5) (Some "b") None] in
  app (POST_createTodo (Value 3) (Value "c") Omitted) db
    = (mkResponse 200 (jsonable (mkTodo (Some 3) (Some "c") None)), db') /\
  exists k, member "id" (jsonable (mkTodo (Some 3) (Some "c") None)) = Some (JInt k) /\
            app (DELETE_todo k) db' = (deleted_response, db).
Proof.
  split; [reflexivity|].
  exact (create_then_delete
           [mkTodo (Some 1) (Some "a") None; mkTodo (Some 5) (Some "b") None]
           [mkTodo (Some 1) (Some "a") None; mkTodo (Some 3) (Some "c") None;
            mkTodo (Some 5) (Some "b") None]
           (Value 3) (Value "c") Omitted
           (mkResponse 200 (jsonable (mkTodo (Some 3) (Some "c") None))) eq_refl eq_refl).
Defined.

Lemma updates_commute_witness :
  let db := [mkTodo (Some 1) (Some "a") None; mkTodo (Some 2) (Some "b") (Some "d")] in
  snd (app (PUT_todo 2 Omitted (Value "y")) (snd (app (PUT_todo 1 (Value "x") Omitted) db)))
  = snd (app (PUT_todo 1 (Value "x") Omitted) (snd (app (PUT_todo 2 Omitted (Value "y")) db))).
Proof.
  apply (updates_commute
           [mkTodo (Some 1) (Some "a") None; mkTodo (Some 2) (Some "b") (Some "d")]
           1 2 (Value "x") Omitted Omitted (Value "y")).
  discriminate.
Defined.

Lemma listing_changes_witness :
  let db := [mkTodo (Some 1) (Some "a") None; mkTodo (Some 2) (Some "b") None;
             mkTodo (Some 3) (Some "c") None] in
  reachable db /\
  exists l1 l2, list_all db = l1 ++ mkTodo (Some 2) (Some "b") None :: l2 /\
                list_all (snd (app (DELETE_todo 2) db)) = l1 ++ l2.
Proof.
  assert (Hr : reachable [mkTodo (Some 1) (Some "a") None; mkTodo (Some 2) (Some "b") None;
                          mkTodo (Some 3) (Some "c") None]).
  { exists [POST_createTodo Omitted (Value "a") Omitted;
            POST_createTodo Omitted (Value "b") Omitted;
            POST_createTodo Omitted (Value "c") Omitted]. reflexivity. }
  split; [exact Hr|].
  exact (proj1 (proj2 (listing_changes _)) 2 (mkTodo (Some 2) (Some "b") None) Hr eq_refl).
Defined.


Lemma client_fixture_faithful_witness :
  let reqs := [POST_createTodo Omitted (Value "Original Title") (Value "Original Desc");
               PUT_todo 1 (Value "Only Title Updated") Omitted;
               GET_todo 1; DELETE_todo 1; GET_todo 1] in
  Forall (fun r => status_code r <> 500) (responses reqs []) /\
  fst (client_run reqs session_fixture) = responses reqs [].
Proof.
  assert (Hok : Forall (fun r => status_code r <> 500)
                  (responses
                     [POST_createTodo Omitted (Value "Original Title") (Value "Original Desc");
                      PUT_todo 1 (Value "Only Title Updated") Omitted;
                      GET_todo 1; DELETE_todo 1; GET_todo 1] [])).
  { repeat (constructor; [discriminate|]). constructor. }
  split; [exact Hok|].
  exact (proj1 (client_fixture_faithful _ Hok)).
Defined.
